(** * Build/watch orchestrator of the generated FrontEnd project

    Two source files are embedded here:

    - [gulp/watch.js]  (the [watch] entry point: eight calls to gulp's
      [watch], each binding a configured glob to a composition built with
      gulp's [series] and [parallel]);
    - [gulp/guide.js]  (the [guide:build] task: the dynamic fragment
      loader and the call of the external design-guide renderer).

    gulp itself is a library: its [series], [parallel] and [watch] are
    modelled in [Module Gulp] after its documented behaviour, over a logical
    clock.  The task units other than [guide:build] live in files of their
    own and are opaque here: a task unit is known by its name, by how long it
    takes and by whether it signals success or failure.

    What [guide.js] imports from outside ([globbySync], [readFileSync],
    the module loader, [Date.now], [generateGuide]) is a record of
    collaborators; the functions of [node:path/posix] it calls are modelled
    in [Module Posix].  One invocation of [guide:build] is followed from its
    first line to its last: invocations that overlap in time are not
    interleaved here. *)

From stdpp Require Import gmap strings list.
From Stdlib Require Import ZArith Lia Ascii.
From Stdlib Require DecimalN.

Set Warnings "-register-all".

(** Errors are identified by their message. *)
Definition error := string.

(** The completion signal of a task unit or of a composition. *)
Inductive result := Ok | Err (e : error).

Definition is_ok (r : result) : bool :=
  match r with Ok => true | Err _ => false end.

(* ================================================================== *)
(** * gulp's composition combinators over a logical clock *)
(* ================================================================== *)

Module Gulp.

(** A composition, as [series(...)] and [parallel(...)] build it from task
    functions. *)
Inductive node (T : Type) :=
| Leaf (t : T)
| Series (ns : list (node T))
| Parallel (ns : list (node T)).
Arguments Leaf {T} t.
Arguments Series {T} ns.
Arguments Parallel {T} ns.

(** What one invocation of a task body does, as far as the scheduler can
    tell: it signals completion [duration] ticks after it was started, with
    [outcome]. *)
Record behaviour := { duration : nat; outcome : result }.

(** The scheduler's observable actions.  The position [p] is the path of the
    leaf inside the composition (child indices from the root), so that two
    uses of one task in one composition stay apart. *)
Inductive event (T : Type) :=
| Started (p : list nat) (t : T)
| Finished (p : list nat) (t : T) (r : result).
Arguments Started {T} p t.
Arguments Finished {T} p t r.

(** One run of a composition: the time-stamped actions, and the completion
    signal the composition gives to whoever invoked it. *)
Record report (T : Type) := {
  events : list (nat * event T);
  signal_at : nat;
  signal : result
}.
Arguments events {T} r.
Arguments signal_at {T} r.
Arguments signal {T} r.

Section Scheduler.
Context {T : Type}.
Variable env : T -> behaviour.

Definition idle (t : nat) : report T :=
  {| events := []; signal_at := t; signal := Ok |}.

(** [series]: child [i+1] is started when child [i] signals success; the
    first failure ends the composition with that error. *)
Definition chain (run : node T -> list nat -> nat -> report T)
    (p : list nat) : nat -> list (node T) -> nat -> report T :=
  fix go (i : nat) (ns : list (node T)) (t : nat) : report T :=
    match ns with
    | [] => idle t
    | n :: ns' =>
        let r := run n (p ++ [i]) t in
        match signal r with
        | Ok =>
            let r' := go (S i) ns' (signal_at r) in
            {| events := events r ++ events r';
               signal_at := signal_at r';
               signal := signal r' |}
        | Err e => r
        end
    end.

(** [parallel]: every child is started at once; none is cancelled. *)
Definition fork (run : node T -> list nat -> nat -> report T)
    (p : list nat) (t : nat) : nat -> list (node T) -> list (report T) :=
  fix go (i : nat) (ns : list (node T)) : list (report T) :=
    match ns with
    | [] => []
    | n :: ns' => run n (p ++ [i]) t :: go (S i) ns'
    end.

(** The earliest failure among the children of a [parallel] (the leftmost
    one when two fail at the same tick). *)
Fixpoint first_failure (rs : list (report T)) : option (nat * error) :=
  match rs with
  | [] => None
  | r :: rs' =>
      match signal r, first_failure rs' with
      | Err e, Some (t', e') =>
          if signal_at r <=? t' then Some (signal_at r, e) else Some (t', e')
      | Err e, None => Some (signal_at r, e)
      | Ok, o => o
      end
  end.

Definition join_time (t : nat) (rs : list (report T)) : nat :=
  foldr (fun r m => Nat.max (signal_at r) m) t rs.

(** A [parallel] signals the first failure as soon as it happens, and
    success once every child has signalled success. *)
Definition barrier (t : nat) (rs : list (report T)) : report T :=
  match first_failure rs with
  | Some (t', e) =>
      {| events := concat (map events rs); signal_at := t'; signal := Err e |}
  | None =>
      {| events := concat (map events rs);
         signal_at := join_time t rs;
         signal := Ok |}
  end.

Fixpoint run (n : node T) (p : list nat) (t0 : nat) : report T :=
  match n with
  | Leaf t =>
      let b := env t in
      {| events := [(t0, Started p t);
                    (t0 + duration b, Finished p t (outcome b))];
         signal_at := t0 + duration b;
         signal := outcome b |}
  | Series ns => chain run p 0 ns t0
  | Parallel ns => barrier t0 (fork run p t0 0 ns)
  end.

(** The task units of a composition, left to right. *)
Fixpoint tasks_of (n : node T) : list T :=
  match n with
  | Leaf t => [t]
  | Series ns => concat (map tasks_of ns)
  | Parallel ns => concat (map tasks_of ns)
  end.

Definition task_of (e : event T) : T :=
  match e with Started _ t => t | Finished _ t _ => t end.

Definition path_of (e : event T) : list nat :=
  match e with Started p _ => p | Finished p _ _ => p end.

End Scheduler.

End Gulp.

(* ================================================================== *)
(** * gulp/watch.js *)
(* ================================================================== *)

Module Watch.
Import Gulp.

(** The task units the watch entry point refers to: the [build] export of
    each task module, and [reload] of [browser.js]. *)
Inductive task :=
| styles_build | fonts_build | symbols_build | images_build | libs_build
| scripts_build | views_build | guide_build | reload.

#[export] Instance task_eq_dec : EqDecision task.
Proof. solve_decision. Defined.

(** The configured globs the entry point watches.  Their values are in the
    configuration module; only their identity matters here. *)
Inductive glob :=
| config_src_styles | config_src_fonts | config_src_symbols
| config_src_images | config_libs | config_src_scripts
| config_src_views_0 | config_guide.

#[export] Instance glob_eq_dec : EqDecision glob.
Proof. solve_decision. Defined.

(** A Route: what one call [watch(globs, task)] registers. *)
Record route := { globs : glob; composition : node task }.

(** The state the entry point acts on: the subscriptions registered so far
    and the number of times its [done] callback was called. *)
Record registry := { subscriptions : list route; done_calls : nat }.

Definition watch (g : glob) (c : node task) (s : registry) : registry :=
  {| subscriptions := subscriptions s ++ [{| globs := g; composition := c |}];
     done_calls := done_calls s |}.

Definition done (s : registry) : registry :=
  {| subscriptions := subscriptions s; done_calls := S (done_calls s) |}.

Definition series (ns : list (node task)) : node task := Series ns.
Definition parallel (ns : list (node task)) : node task := Parallel ns.

(** [function build(done)] of watch.js. *)
Definition build (s : registry) : registry :=
  let s := watch config_src_styles (Leaf styles_build) s in
  let s := watch config_src_fonts (series [Leaf fonts_build; Leaf reload]) s in
  let s := watch config_src_symbols (series [Leaf symbols_build; Leaf reload]) s in
  let s := watch config_src_images (series [Leaf images_build; Leaf reload]) s in
  let s := watch config_libs (series [Leaf libs_build; Leaf reload]) s in
  let s := watch config_src_scripts (series [Leaf scripts_build; Leaf reload]) s in
  let s := watch config_src_views_0
             (series [parallel [Leaf views_build; Leaf guide_build]; Leaf reload]) s in
  let s := watch config_guide (series [Leaf guide_build; Leaf reload]) s in
  done s.

Definition start : registry := {| subscriptions := []; done_calls := 0 |}.

(** The Routes of a freshly started watch mode. *)
Definition routes : list route := subscriptions (build start).

(** A change event reaches every subscription whose glob matches the changed
    file; [matches] says which configured globs the file matches.  Each
    subscription reached runs its composition once, from its initial
    state. *)
Definition on_change (subs : list route) (matches : glob -> bool) : list route :=
  filter (fun r => matches (globs r) = true) subs.

Definition run_route (env : task -> behaviour) (r : route) (t0 : nat) : report task :=
  run env (composition r) [] t0.

(** The calls of the reload notifier in a run. *)
Definition is_notify (te : nat * event task) : bool :=
  match te.2 with
  | Started _ reload => true
  | _ => false
  end.

Definition notify_count (rep : report task) : nat :=
  length (filter (fun te => is_notify te = true) (events rep)).

(** Two concrete ways the task units may behave: every one of them
    succeeds after one tick; or every build step fails and [reload] would
    succeed. *)
Definition quiet : task -> behaviour :=
  fun _ => {| duration := 1; outcome := Ok |}.

Definition broken : task -> behaviour :=
  fun t =>
    match t with
    | reload => {| duration := 1; outcome := Ok |}
    | _ => {| duration := 1; outcome := Err "build failed" |}
    end.

Definition styles_route : route :=
  {| globs := config_src_styles; composition := Leaf styles_build |}.
Definition fonts_route : route :=
  {| globs := config_src_fonts;
     composition := series [Leaf fonts_build; Leaf reload] |}.
Definition views_route : route :=
  {| globs := config_src_views_0;
     composition :=
       series [parallel [Leaf views_build; Leaf guide_build]; Leaf reload] |}.
Definition guide_route : route :=
  {| globs := config_guide;
     composition := series [Leaf guide_build; Leaf reload] |}.

(** A change of a file that matches the styles glob and no other. *)
Definition styles_only (g : glob) : bool := bool_decide (g = config_src_styles).

(** The number of leaves of a composition. *)
Fixpoint leaves {T} (n : node T) : nat :=
  match n with
  | Leaf _ => 1
  | Series ns => foldr (fun c k => leaves c + k) 0 ns
  | Parallel ns => foldr (fun c k => leaves c + k) 0 ns
  end.

End Watch.

(* ================================================================== *)
(** * node:path/posix, for the paths a glob returns *)
(* ================================================================== *)

Module Posix.

Definition slash : ascii := "/"%char.
Definition dot : ascii := "."%char.

Definition drop_chars (n : nat) (s : string) : string :=
  String.substring n (String.length s - n) s.

Fixpoint last_index (c : ascii) (s : string) : option nat :=
  match s with
  | String.EmptyString => None
  | String.String a s' =>
      match last_index c s' with
      | Some i => Some (S i)
      | None => if Ascii.eqb a c then Some 0 else None
      end
  end.

(** Trailing separators are ignored by [basename] and [extname]. *)
Fixpoint trim_trailing (s : string) : string :=
  match s with
  | String.EmptyString => String.EmptyString
  | String.String a s' =>
      let r := trim_trailing s' in
      if Ascii.eqb a slash && String.eqb r String.EmptyString
      then String.EmptyString else String.String a r
  end.

(** The last portion of a path. *)
Definition last_portion (path : string) : string :=
  let s := trim_trailing path in
  match last_index slash s with
  | Some i => drop_chars (S i) s
  | None => s
  end.

(** [extname(path)]: from the last dot of the last portion to its end; empty
    when there is no dot, when the only dot is the first character, and for
    the portion [..]. *)
Definition extname (path : string) : string :=
  let b := last_portion path in
  match last_index dot b with
  | None => String.EmptyString
  | Some 0 => String.EmptyString
  | Some i => if String.eqb b ".." then String.EmptyString else drop_chars i b
  end.

Definition ends_with (s suffix : string) : bool :=
  (String.length suffix <=? String.length s)
  && String.eqb (drop_chars (String.length s - String.length suffix) s) suffix.

(** [basename(path, suffix)]: the last portion, without [suffix] when the
    portion ends with it and is longer than it. *)
Definition basename (path suffix : string) : string :=
  let b := last_portion path in
  if negb (String.eqb suffix String.EmptyString) && String.eqb suffix path
  then String.EmptyString
  else if negb (String.eqb suffix String.EmptyString) && ends_with b suffix
          && (String.length suffix <? String.length b)
  then String.substring 0 (String.length b - String.length suffix) b
  else b.

(** The segments of a path, between separators. *)
Fixpoint segments (s : string) : list string :=
  match s with
  | String.EmptyString => [String.EmptyString]
  | String.String a s' =>
      if Ascii.eqb a slash then String.EmptyString :: segments s'
      else match segments s' with
           | seg :: rest => String.String a seg :: rest
           | [] => [String.String a String.EmptyString]
           end
  end.

(** Resolution of [.] and [..] segments; [acc] is the resolved prefix, last
    segment first. *)
Fixpoint resolve (allow_above_root : bool) (acc : list string)
    (segs : list string) : list string :=
  match segs with
  | [] => rev acc
  | seg :: segs' =>
      if String.eqb seg String.EmptyString || String.eqb seg "." then
        resolve allow_above_root acc segs'
      else if String.eqb seg ".." then
        match acc with
        | top :: acc' =>
            if String.eqb top ".."
            then resolve allow_above_root (seg :: acc) segs'
            else resolve allow_above_root acc' segs'
        | [] =>
            if allow_above_root
            then resolve allow_above_root [seg] segs'
            else resolve allow_above_root [] segs'
        end
      else resolve allow_above_root (seg :: acc) segs'
  end.

Fixpoint glue (segs : list string) : string :=
  match segs with
  | [] => String.EmptyString
  | [seg] => seg
  | seg :: segs' => (seg ++ "/" ++ glue segs')%string
  end.

Definition starts_with_slash (s : string) : bool :=
  match s with String.String a _ => Ascii.eqb a slash | String.EmptyString => false end.

Definition ends_with_slash (s : string) : bool :=
  match last_index slash s with
  | Some i => S i =? String.length s
  | None => false
  end.

Definition normalize (path : string) : string :=
  if String.eqb path String.EmptyString then "."%string
  else
    let absolute := starts_with_slash path in
    let trailing := ends_with_slash path in
    let p := glue (resolve (negb absolute) [] (segments path)) in
    if String.eqb p String.EmptyString then
      if absolute then "/"%string else if trailing then "./"%string else "."%string
    else
      let p := if trailing then (p ++ "/")%string else p in
      if absolute then ("/" ++ p)%string else p.

(** [join(a, b)]: the non-empty arguments joined by a separator, then
    normalized. *)
Definition join (a b : string) : string :=
  let parts := filter (fun s => s <> String.EmptyString) [a; b] in
  match parts with
  | [] => "."%string
  | _ => normalize (glue parts)
  end.

End Posix.

(* ================================================================== *)
(** * gulp/guide.js *)
(* ================================================================== *)

Module Guide.

(** The values a fragment module can export.  An object is extensible and
    its properties are writable data properties.  [VObject props] is a
    plain object: its own properties are [props] and its prototype is
    [Object.prototype].  [VInherit proto props] is an object whose
    prototype is the object [proto]; a [proto] that is no object stands for
    the [null] prototype.  Values are trees: an object does not hold
    itself. *)
Inductive value :=
| VUndefined
| VString (s : string)
| VNumber (n : Z)
| VObject (props : gmap string value)
| VInherit (proto : value) (props : gmap string value).

(** An import specifier [`${path}?t=${marker}`]: the module path and the
    time marker of its query. *)
Abbreviation specifier := (string * Z)%type.

(** What [build] calls and does not define. *)
Record collaborators := {
  (** [globbySync(config.guide)] *)
  globbySync : error + list string;
  (** [JSON.parse(readFileSync('./package.json'))] *)
  read_package : error + value;
  (** Whether Node takes the file at a path for a CommonJS module (by its
      extension and by the [type] of its package); otherwise it takes it
      for an ES module. *)
  commonjs : string -> bool;
  (** Evaluation of the module file at a path, as the process evaluates it
      at that moment, together with what the file imports itself (loaded
      under specifiers of their own, which carry no time marker): its
      default export, or the error it throws. *)
  evaluate : string -> error + value;
  (** The value of the n-th call of [Date.now()] in this process. *)
  date_now : nat -> Z;
  (** [generateGuide({package, guide, config, destination})]: whether it
      throws. *)
  generateGuide : value -> value -> option error
}.

(** The state of the process that [build] reads and writes. *)
Record world := {
  (** The module map of the ES module loader, as far as [build] can reach
      it: one module per specifier with a time marker, kept for the life of
      the process.  The module of a CommonJS file is a wrapper around the
      exports of the file.  (What a fragment imports itself is loaded
      under specifiers without a marker, which [build] never requests: it
      is part of [evaluate].) *)
  module_map : gmap specifier (error + value);
  (** The cache of the CommonJS loader ([require.cache]): the exports of
      the files evaluated without an error, by file name, whatever the
      query of the specifier. *)
  require_cache : gmap string value;
  (** Specifiers passed to [import()], oldest first. *)
  import_log : list specifier;
  (** Number of calls of [Date.now()] so far. *)
  date_calls : nat;
  (** Requests received by the renderer, oldest first. *)
  render_log : list (value * value);
  (** Lines written by [console.error]. *)
  console : list (string * error);
  (** Calls of the completion callback. *)
  done_calls : nat
}.

Definition fresh_process : world :=
  {| module_map := ∅; require_cache := ∅; import_log := []; date_calls := 0;
     render_log := []; console := []; done_calls := 0 |}.

(** Computations of an async function body: the left summand is an
    exception, which rejects the promise the function returned. *)
Definition M (A : Type) : Type := world -> (error + A) * world.

#[export] Instance M_ret : MRet M := fun A (a : A) w => (inr a, w).
#[export] Instance M_bind : MBind M := fun A B (f : A -> M B) (m : M A) w =>
  match m w with
  | (inr a, w') => f a w'
  | (inl e, w') => (inl e, w')
  end.

Definition throw {A} (e : error) : M A := fun w => (inl e, w).

Definition lift {A} (r : error + A) : M A := fun w => (r, w).

Definition try_catch (m : M unit) (handler : error -> M unit) : M unit :=
  fun w =>
    match m w with
    | (inl e, w') => handler e w'
    | r => r
    end.

Definition TypeError_path : error :=
  "TypeError [ERR_INVALID_ARG_TYPE]: The path argument must be of type string"%string.
Definition TypeError_property : error :=
  "TypeError: Cannot set properties"%string.

(** [file.includes(token)] *)
Definition includes (file token : string) : bool :=
  match String.index 0 token file with Some _ => true | None => false end.

(** [files.findIndex(p)]: the first position that satisfies [p], or -1. *)
Fixpoint findIndex {A} (p : A -> bool) (l : list A) : Z :=
  match l with
  | [] => -1
  | x :: l' =>
      if p x then 0
      else let i := findIndex p l' in if (i <? 0)%Z then -1 else (i + 1)%Z
  end.

(** [l.splice(start, count)]: the removed elements and what is left of the
    array.  A negative [start] counts from the end. *)
Definition splice {A} (l : list A) (start : Z) (count : nat) : list A * list A :=
  let len := Z.of_nat (length l) in
  let s := if (start <? 0)%Z then Z.max (len + start) 0 else Z.min start len in
  let s := Z.to_nat s in
  (take count (drop s l), take s l ++ drop (s + count) l).

(** [join('..', file)] where [file] may be [undefined]. *)
Definition join_up (file : option string) : M string :=
  match file with
  | Some f => mret (Posix.join ".." f)
  | None => throw TypeError_path
  end.

Definition Date_now (c : collaborators) : M Z := fun w =>
  (inr (date_now c (date_calls w)),
   {| module_map := module_map w; require_cache := require_cache w;
      import_log := import_log w;
      date_calls := S (date_calls w); render_log := render_log w;
      console := console w; done_calls := done_calls w |}).

(** What the loaders answer for a specifier.  The ES module map answers
    for a specifier it holds.  Otherwise a CommonJS file is answered by
    the CommonJS cache when this holds the file, whatever the query; and
    every other module is evaluated. *)
Definition answer (c : collaborators) (w : world) (s : specifier)
    : error + value :=
  match module_map w !! s with
  | Some r => r
  | None =>
      if commonjs c s.1 then
        match require_cache w !! s.1 with
        | Some v => inr v
        | None => evaluate c s.1
        end
      else evaluate c s.1
  end.

(** The CommonJS cache after the import of a specifier: it takes the
    exports of a CommonJS file that was evaluated, without an error, for
    this import. *)
Definition required (c : collaborators) (w : world) (s : specifier)
    : gmap string value :=
  match module_map w !! s with
  | Some _ => require_cache w
  | None =>
      if commonjs c s.1 then
        match require_cache w !! s.1 with
        | Some _ => require_cache w
        | None =>
            match evaluate c s.1 with
            | inr v => <[s.1 := v]> (require_cache w)
            | inl _ => require_cache w
            end
        end
      else require_cache w
  end.

(** [await import(specifier)], destructured to the default export.  The
    outcome is kept in the module map under the specifier. *)
Definition import (c : collaborators) (s : specifier) : M value := fun w =>
  (answer c w s,
   {| module_map := match module_map w !! s with
                    | Some _ => module_map w
                    | None => <[s := answer c w s]> (module_map w)
                    end;
      require_cache := required c w s;
      import_log := import_log w ++ [s];
      date_calls := date_calls w; render_log := render_log w;
      console := console w; done_calls := done_calls w |}).

(** The variable [guide] refers to the default export of the module imported
    under [ref]; the object is shared with the module map.  [deref] reads
    it. *)
Definition deref (ref : specifier) : M value := fun w =>
  match module_map w !! ref with
  | Some (inr v) => (inr v, w)
  | _ => (inr VUndefined, w)
  end.

Definition proto_key : string := "__proto__".

Definition is_object (v : value) : bool :=
  match v with
  | VObject _ | VInherit _ _ => true
  | _ => false
  end.

(** The own properties of a value. *)
Definition own (v : value) : gmap string value :=
  match v with
  | VObject props | VInherit _ props => props
  | _ => ∅
  end.

(** Whether an object whose prototype is [proto], and which has no own
    property [__proto__], finds the accessor [__proto__] of
    [Object.prototype] on its prototype chain: no object of the chain has
    an own property of that name, and the chain ends in
    [Object.prototype]. *)
Fixpoint setter_inherited (proto : value) : bool :=
  match proto with
  | VObject props => bool_decide (props !! proto_key = None)
  | VInherit p props =>
      bool_decide (props !! proto_key = None) && setter_inherited p
  | _ => false
  end.

(** [target[key] = v] in strict mode: the target after the assignment, or
    the [TypeError].  On an object the assignment writes an own property,
    except when the key is [__proto__] and the accessor of
    [Object.prototype] is found: its setter replaces the prototype when
    [v] is an object and does nothing otherwise.  On a string or a number
    the setter does nothing, and every other key throws. *)
Definition put (key : string) (v target : value) : error + value :=
  match target with
  | VUndefined => inl TypeError_property
  | VString _ | VNumber _ =>
      if String.eqb key proto_key then inr target else inl TypeError_property
  | VObject props =>
      if String.eqb key proto_key && bool_decide (props !! proto_key = None)
      then inr (if is_object v then VInherit v props else VObject props)
      else inr (VObject (<[key := v]> props))
  | VInherit p props =>
      if String.eqb key proto_key && bool_decide (props !! proto_key = None)
         && setter_inherited p
      then inr (if is_object v then VInherit v props else VInherit p props)
      else inr (VInherit p (<[key := v]> props))
  end.

(** The module map after the object [ref] refers to has become [g]: the
    exports of a CommonJS file are one object behind every module of the
    file. *)
Definition settle (c : collaborators) (ref : specifier) (g : value)
    (m : gmap specifier (error + value)) : gmap specifier (error + value) :=
  if commonjs c ref.1 then
    map_imap (fun k r =>
                Some (if bool_decide (k.1 = ref.1)
                      then match r with inr _ => inr g | inl e => inl e end
                      else r)) m
  else <[ref := inr g]> m.

(** [guide[key] = value], in strict mode. *)
Definition assign (c : collaborators) (ref : specifier) (key : string)
    (v : value) : M unit := fun w =>
  match module_map w !! ref with
  | Some (inr g) =>
      match put key v g with
      | inr g' =>
          (inr tt,
           {| module_map := settle c ref g' (module_map w);
              require_cache :=
                if commonjs c ref.1 then <[ref.1 := g']> (require_cache w)
                else require_cache w;
              import_log := import_log w; date_calls := date_calls w;
              render_log := render_log w; console := console w;
              done_calls := done_calls w |})
      | inl e => (inl e, w)
      end
  | _ => (inl TypeError_property, w)
  end.

Definition call_generateGuide (c : collaborators) (pkg guide : value) : M unit :=
  fun w =>
    let w' := {| module_map := module_map w;
                 require_cache := require_cache w;
                 import_log := import_log w;
                 date_calls := date_calls w;
                 render_log := render_log w ++ [(pkg, guide)];
                 console := console w; done_calls := done_calls w |} in
    match generateGuide c pkg guide with
    | Some e => (inl e, w')
    | None => (inr tt, w')
    end.

Definition console_error (msg : string) (e : error) : M unit := fun w =>
  (inr tt,
   {| module_map := module_map w; require_cache := require_cache w;
      import_log := import_log w;
      date_calls := date_calls w; render_log := render_log w;
      console := console w ++ [(msg, e)]; done_calls := done_calls w |}).

Definition done : M unit := fun w =>
  (inr tt,
   {| module_map := module_map w; require_cache := require_cache w;
      import_log := import_log w;
      date_calls := date_calls w; render_log := render_log w;
      console := console w; done_calls := S (done_calls w) |}).

(** [basename(file, extname(file))] *)
Definition key_of (file : string) : string :=
  Posix.basename file (Posix.extname file).

(** [for (const file of files) { ... }] *)
Fixpoint for_of {A} (l : list A) (body : A -> M unit) : M unit :=
  match l with
  | [] => mret tt
  | x :: l' => body x ≫= fun _ => for_of l' body
  end.

(** [files.splice(files.findIndex(file => file.includes('index')), 1)]:
    the removed elements and the files left in the array. *)
Definition split_index (files : list string) : list string * list string :=
  splice files (findIndex (fun file => includes file "index") files) 1.

(** [await import(`${join('..', file)}?t=${Date.now()}`)]: the path is
    joined first, then the clock is read, then the module is imported.  The
    result is the specifier together with the default export. *)
Definition import_now (c : collaborators) (file : option string)
    : M (specifier * value) :=
  path ← join_up file;
  t ← Date_now c;
  v ← import c (path, t);
  mret ((path, t), v).

(** Lines 21 to 24: the body of the loop. *)
Definition load_fragment (c : collaborators) (guide : specifier)
    (file : string) : M unit :=
  let key := key_of file in
  '(_, v) ← import_now c (Some file);
  assign c guide key v.

(** Lines 15 to 25 of [build]: the fragment loader.  It returns the package
    manifest and the specifier [guide] refers to. *)
Definition fragments (c : collaborators) : M (value * specifier) :=
  files ← lift (globbySync c);
  let '(removed, files) := split_index files in
  let index := head removed in
  pkg ← lift (read_package c);
  '(guide, _) ← import_now c index;
  _ ← for_of files (load_fragment c guide);
  mret (pkg, guide).

Definition skipping : string :=
  (" Skipping the generation of the Design Guide:"
   ++ String.String (ascii_of_nat 10) String.EmptyString)%string.

(** Lines 27 to 36: the guarded call of the renderer. *)
Definition render (c : collaborators) (pkg : value) (guide : specifier) : M unit :=
  try_catch
    (g ← deref guide; call_generateGuide c pkg g)
    (fun e => console_error skipping e).

(** [async function build(done)] *)
Definition build (c : collaborators) : M unit :=
  '(pkg, guide) ← fragments c;
  _ ← render c pkg guide;
  done.

(** The completion signal gulp takes from one invocation: the promise of
    the async function rejects with the exception, or the callback was
    called and the promise resolves. *)
Definition task_result (r : (error + unit) * world) : result :=
  match r.1 with
  | inl e => Err e
  | inr _ => Ok
  end.

(** The specifiers an invocation requests for a list of files when the
    clock has been read [n] times before. *)
Fixpoint requests (c : collaborators) (n : nat) (files : list string)
    : list specifier :=
  match files with
  | [] => []
  | f :: files' => (Posix.join ".." f, date_now c n) :: requests c (S n) files'
  end.




(** The specifier under which an invocation started in [w] imports the
    index module. *)
Definition index_specifier (c : collaborators) (w : world) (ix : string)
    : specifier :=
  (Posix.join ".." ix, date_now c (date_calls w)).





(** [keeps P m]: whatever [m] does, it takes a state where [P] holds to a
    state where [P] holds. *)
Definition keeps {A} (P : world -> Prop) (m : M A) : Prop :=
  forall w r w', m w = (r, w') -> P w -> P w'.


(** What resolving the file list, reading the manifest or importing a
    module can throw before the renderer is reached: [load_failure c w e w']
    says that, started in [w], one of these throws [e] and leaves the
    process in [w']. *)
Inductive load_failure (c : collaborators) (w : world) (e : error)
    : world -> Prop :=
| glob_throws :
    globbySync c = inl e ->
    load_failure c w e w
| manifest_throws files :
    globbySync c = inr files ->
    read_package c = inl e ->
    load_failure c w e w
| index_import_throws files removed others pkg w' :
    globbySync c = inr files ->
    split_index files = (removed, others) ->
    read_package c = inr pkg ->
    import_now c (head removed) w = (inl e, w') ->
    load_failure c w e w'
| fragment_import_throws files removed before file after pkg guide v wa wb w' :
    globbySync c = inr files ->
    split_index files = (removed, before ++ file :: after) ->
    read_package c = inr pkg ->
    import_now c (head removed) w = (inr (guide, v), wa) ->
    for_of before (load_fragment c guide) wa = (inr tt, wb) ->
    import_now c (Some file) wb = (inl e, w') ->
    load_failure c w e w'.

(** The own property of the aggregate the renderer received last. *)
Definition rendered_property (w : world) (k : string) : option value :=
  match last (render_log w) with
  | Some (_, g) => own g !! k
  | None => None
  end.

(** ** A sample project *)

Definition object (props : list (string * value)) : value :=
  VObject (list_to_map props).

Definition manifest : value := object [("name"%string, VString "starter")].

Definition sample_files : list string :=
  ["src/guide/index.js"; "src/guide/button.js"; "src/guide/card.js"]%string.

(** The fragment files on disk, and the same files after an edit of
    [button.js]. *)
Definition disk (button : string) (path : string) : error + value :=
  if String.eqb path "../src/guide/index.js"
  then inr (object [("title"%string, VString "Design Guide")])
  else if String.eqb path "../src/guide/button.js" then inr (VString button)
  else if String.eqb path "../src/guide/card.js" then inr (VString "card")
  else inl "ERR_MODULE_NOT_FOUND"%string.

(** A clock that advances between any two readings, and a clock that reads
    the same three values again and again (it is set back after every third
    reading). *)
Definition ticking (n : nat) : Z := 1000 + Z.of_nat n.
Definition set_back (n : nat) : Z := 1000 + Z.of_nat (n mod 3).

Definition project (files : error + list string)
    (modules : string -> error + value) (clock : nat -> Z)
    (renderer : value -> value -> option error) : collaborators :=
  {| globbySync := files; read_package := inr manifest;
     commonjs := fun path => String.eqb (Posix.extname path) ".cjs";
     evaluate := modules; date_now := clock; generateGuide := renderer |}.

Definition renders : value -> value -> option error := fun _ _ => None.
Definition render_throws : value -> value -> option error :=
  fun _ _ => Some "Error: cannot render"%string.




Definition repeating : collaborators :=
  project (inr sample_files) (disk "button") set_back renders.

Definition repeating_edited : collaborators :=
  project (inr sample_files) (disk "button v2") set_back renders.

Definition no_match : collaborators :=
  project (inr []) (disk "button") ticking renders.

Definition unrendered : collaborators :=
  project (inr sample_files) (disk "button") ticking render_throws.






(** A project in which [card.js] throws when it is evaluated. *)
Definition card_throws (path : string) : error + value :=
  if String.eqb path "../src/guide/card.js"
  then inl "SyntaxError: Unexpected token"%string
  else disk "button" path.

Definition broken_card : collaborators :=
  project (inr sample_files) card_throws ticking renders.


(** A project with a fragment named [__proto__], and a project with two
    of them. *)
Definition proto_files : list string :=
  ["src/guide/index.js"; "src/guide/__proto__.js"]%string.












End Guide.

(* ================================================================== *)
(** * The guide build as a task unit of the watch mode *)
(* ================================================================== *)

Module Wiring.
Import Gulp.

(** The behaviour of the task units when [guide:build] is the invocation of
    [Guide.build] with collaborators [c] in the process state [w] and takes
    [d] ticks; the other task units behave as [env] says. *)
Definition with_guide (env : Watch.task -> behaviour)
    (c : Guide.collaborators) (w : Guide.world) (d : nat)
    : Watch.task -> behaviour :=
  fun t =>
    match t with
    | Watch.guide_build =>
        {| duration := d; outcome := Guide.task_result (Guide.build c w) |}
    | _ => env t
    end.

End Wiring.

(* ================================================================== *)
(** * Counting over the runs a change triggers *)
(* ================================================================== *)

Module Dispatch.
Import Gulp Watch.

(** The calls of the reload notifier over the runs of several Routes, each
    started at [t0]. *)
Definition total_notifies (env : task -> behaviour) (t0 : nat)
    (rs : list route) : nat :=
  foldr (fun r k => notify_count (run_route env r t0) + k) 0 rs.

End Dispatch.

(* ================================================================== *)
(** * More sample projects *)
(* ================================================================== *)

Module GuideCases.
Import Guide.

(** A project in which every fragment, the index too, exports its own path
    as a string. *)
Definition bare_index : collaborators :=
  project (inr sample_files) (fun path => inr (VString path)) ticking renders.

(** A project whose index module exports a string and whose only other
    file is named [__proto__]. *)
Definition bare_proto : collaborators :=
  project (inr proto_files) (fun path => inr (VString path)) ticking renders.

End GuideCases.

(* ================================================================== *)
(** * JavaScript built-ins the generator uses *)
(* ================================================================== *)

(** A string is the sequence of its code units; the strings modelled here
    have code units below 256. *)

Module Js.

(** An object whose values are strings: its own properties, in insertion
    order. *)
Abbreviation object := (list (string * string)).

(** [o[k]] *)
Fixpoint get (k : string) (o : object) : option string :=
  match o with
  | [] => None
  | (k', v) :: o' => if String.eqb k' k then Some v else get k o'
  end.

(** [o[k] = v]: an own property keeps its place, a new one goes last. *)
Fixpoint set (k v : string) (o : object) : object :=
  match o with
  | [] => [(k, v)]
  | (k', v') :: o' =>
      if String.eqb k' k then (k, v) :: o' else (k', v') :: set k v o'
  end.

(** [Object.assign(target, source)] *)
Definition assign (target source : object) : object :=
  foldl (fun o kv => set kv.1 kv.2 o) target source.

(** [Object.keys(o)] *)
Definition keys (o : object) : list string := map fst o.

(** [array.includes(x)] on an array of strings *)
Definition includes (l : list string) (x : string) : bool :=
  existsb (String.eqb x) l.

(** [array.some(p)] *)
Definition some {A} (p : A -> bool) (l : list A) : bool := existsb p l.

(** White space and line terminators, among the code units below 256. *)
Definition is_space (c : ascii) : bool :=
  let n := nat_of_ascii c in
  (n =? 9) || (n =? 10) || (n =? 11) || (n =? 12) || (n =? 13)
  || (n =? 32) || (n =? 160).

Fixpoint trimStart (s : string) : string :=
  match s with
  | String.EmptyString => String.EmptyString
  | String.String c s' => if is_space c then trimStart s' else s
  end.

Fixpoint trimEnd (s : string) : string :=
  match s with
  | String.EmptyString => String.EmptyString
  | String.String c s' =>
      match trimEnd s' with
      | String.EmptyString =>
          if is_space c then String.EmptyString
          else String.String c String.EmptyString
      | r => String.String c r
      end
  end.

(** [s.trim()] *)
Definition trim (s : string) : string := trimEnd (trimStart s).

(** [s.includes(c)] for a string [c] of one code unit. *)
Fixpoint has_char (c : ascii) (s : string) : bool :=
  match s with
  | String.EmptyString => false
  | String.String a s' => Ascii.eqb a c || has_char c s'
  end.

(** [s.slice(from, to)] and [s.slice(from)] for indices that are not
    negative. *)
Definition slice (s : string) (from to : nat) : string :=
  String.substring from (to - from) s.

Definition slice_from (s : string) (from : nat) : string :=
  String.substring from (String.length s - from) s.

(** [s.startsWith(prefix)] *)
Definition startsWith (s prefix : string) : bool := String.prefix prefix s.

(** A string that does not begin with white space. *)
Definition starts_clean (s : string) : bool :=
  match s with
  | String.EmptyString => true
  | String.String c _ => negb (is_space c)
  end.

End Js.

(* ================================================================== *)
(** * getDevDependencies *)
(* ================================================================== *)

Module DevDependencies.
Import Js.

(** The object [devDependencies] that [getDevDependencies(tasks, generator)]
    builds before it hands it to [addDevDependencies]. *)
Definition devDependencies (tasks : list string) : object :=
  let devDependencies : object :=
    [("browser-sync", ""); ("del", ""); ("glob-parent", ""); ("globby", "");
     ("gulp", ""); ("gulp-plumber", ""); ("gulp-pug", "");
     ("gulp-rename", ""); ("xo", ""); ("np", "")]%string in
  let devDependencies :=
    if some (fun task => includes ["symbols"; "images"]%string task) tasks
    then assign devDependencies [("gulp-imagemin", "")]%string
    else devDependencies in
  let devDependencies :=
    if includes tasks "symbols"
    then assign devDependencies
           [("gulp-svgstore", ""); ("gulp-tap", ""); ("jsdom", "")]%string
    else devDependencies in
  let devDependencies :=
    if includes tasks "images"
    then assign devDependencies [("imagemin-webp", "")]%string
    else devDependencies in
  let devDependencies :=
    if some (fun task => includes ["styles"; "views"]%string task) tasks
    then assign devDependencies
           [("read-pkg-up", ""); ("resolve.exports", "")]%string
    else devDependencies in
  let devDependencies :=
    if includes tasks "styles"
    then assign devDependencies
           [("cssnano", ""); ("gulp-postcss", ""); ("gulp-sass", "");
            ("postcss", ""); ("postcss-preset-env", ""); ("sass", "")]%string
    else devDependencies in
  let devDependencies :=
    if includes tasks "scripts"
    then assign devDependencies
           [("@babel/core", ""); ("@babel/preset-env", "");
            ("gulp-babel", ""); ("gulp-uglify-es", "")]%string
    else devDependencies in
  let devDependencies :=
    if includes tasks "views"
    then assign devDependencies [("pug-walk", "")]%string
    else devDependencies in
  devDependencies.

(** [async function getDevDependencies(tasks, generator)];
    [addDevDependencies] is imported from [_common/utilities.js]. *)
Definition getDevDependencies {G R : Type}
    (addDevDependencies : object -> G -> R)
    (tasks : list string) (generator : G) : R :=
  addDevDependencies (devDependencies tasks) generator.

(** The names requested whatever the tasks are. *)
Definition always : list string :=
  ["browser-sync"; "del"; "glob-parent"; "globby"; "gulp"; "gulp-plumber";
   "gulp-pug"; "gulp-rename"; "xo"; "np"]%string.

(** The task names the function looks for. *)
Definition known : list string :=
  ["symbols"; "images"; "styles"; "scripts"; "views"]%string.

(** The object as a function of which known tasks are present. *)
Definition by_flags (symbols images styles scripts views : bool) : object :=
  devDependencies
    ((if symbols then ["symbols"%string] else [])
     ++ (if images then ["images"%string] else [])
     ++ (if styles then ["styles"%string] else [])
     ++ (if scripts then ["scripts"%string] else [])
     ++ (if views then ["views"%string] else [])).

End DevDependencies.

(* ================================================================== *)
(** * The generator: prompting and configuring *)
(* ================================================================== *)

Module Starter.
Import Js.

(** [answer.replace(/[/-]/g, '')] *)
Fixpoint without_separators (s : string) : string :=
  match s with
  | String.EmptyString => String.EmptyString
  | String.String c s' =>
      if Ascii.eqb c "/" || Ascii.eqb c "-" then without_separators s'
      else String.String c (without_separators s')
  end.

(** The filter of the question [backendName]. *)
Definition backendName_filter (answer : string) : string :=
  (trim answer ++ (if has_char "." answer then "" else ".Web"))%string.

(** The transformer of the question [backendName]; [cyan] and [dim] are
    [chalk.cyan] and [chalk.dim]. *)
Definition backendName_transformer (cyan dim : string -> string)
    (answer : string) (isFinal : bool) : string :=
  let result := if isFinal then cyan answer else answer in
  if (0 <? String.length answer) && negb (has_char "." answer)
  then (result ++ (if isFinal then cyan else dim) ".Web")%string
  else result.

(** The filter of the twelve date questions. *)
Definition date_filter (answer : string) : string :=
  without_separators (trim answer).

(** [dates] in [configuring()]. *)
Definition dates : list string :=
  ["designStart"; "designEnd"; "frontendStart"; "frontendEnd";
   "backendStart"; "backendEnd"; "stageStart"; "stageEnd";
   "preproductionStart"; "preproductionEnd"; "productionStart";
   "productionEnd"]%string.

(** Reading [slice] of an answer that is [undefined]. *)
Definition TypeError_slice : error :=
  "TypeError: Cannot read properties of undefined (reading 'slice')"%string.

(** The value one turn of the loop over [dates] stores. *)
Definition configured_date (answer : string) : string :=
  let year := slice answer 0 4 in
  let month := slice answer 4 6 in
  let day := slice_from answer 6 in
  (year ++ "-" ++ month ++ "-" ++ day)%string.

(** [for (const date of dates) { ... }] on the string answers: the answers
    after the loop, and the error it threw if it did. *)
Fixpoint configure_dates (dates : list string) (answers : object)
    : option error * object :=
  match dates with
  | [] => (None, answers)
  | date :: rest =>
      match get date answers with
      | None => (Some TypeError_slice, answers)
      | Some answer =>
          configure_dates rest (set date (configured_date answer) answers)
      end
  end.

(** A version as [semver.coerce] gives it: three numbers and nothing
    after them. *)
Record SemVer := { major : N; minor : N; patch : N }.

(** The decimal digits of a number. *)
Fixpoint digits (d : Decimal.uint) : string :=
  match d with
  | Decimal.Nil => String.EmptyString
  | Decimal.D0 d => String.String "0" (digits d)
  | Decimal.D1 d => String.String "1" (digits d)
  | Decimal.D2 d => String.String "2" (digits d)
  | Decimal.D3 d => String.String "3" (digits d)
  | Decimal.D4 d => String.String "4" (digits d)
  | Decimal.D5 d => String.String "5" (digits d)
  | Decimal.D6 d => String.String "6" (digits d)
  | Decimal.D7 d => String.String "7" (digits d)
  | Decimal.D8 d => String.String "8" (digits d)
  | Decimal.D9 d => String.String "9" (digits d)
  end.

(** [String(n)] for a number that is a natural number. *)
Definition Number_toString (n : N) : string := digits (N.to_uint n).

(** [version.version], which is also the text of [`${version}`]. *)
Definition version_text (v : SemVer) : string :=
  (Number_toString (major v) ++ "." ++ Number_toString (minor v) ++ "."
   ++ Number_toString (patch v))%string.

(** [semver.gt(a.version, b.version)] *)
Definition gt (a b : SemVer) : bool :=
  if (major a =? major b)%N then
    if (minor a =? minor b)%N then (patch b <? patch a)%N
    else (minor b <? minor a)%N
  else (major b <? major a)%N.

(** An entry of [versions]: its key, and the engine it describes;
    [version] is [null] when nothing could be read. *)
Record engine := {
  key : string;
  name : string;
  version : option SemVer;
  minimum : string;
  hasMinimum : bool
}.

Fixpoint serial (items : list string) : string :=
  match items with
  | [] => String.EmptyString
  | [z] => ("and " ++ z)%string
  | a :: rest => (a ++ ", " ++ serial rest)%string
  end.

(** [new Intl.ListFormat('en').format(items)] *)
Definition ListFormat_en (items : list string) : string :=
  match items with
  | [] => String.EmptyString
  | [a] => a
  | [a; b] => (a ++ " and " ++ b)%string
  | _ => serial items
  end.

(** [lines.join('\n')] *)
Fixpoint join_lines (lines : list string) : string :=
  match lines with
  | [] => String.EmptyString
  | [l] => l
  | l :: rest => (l ++ String.String (ascii_of_nat 10) (join_lines rest))%string
  end.

Section Initializing.

(** [chalk.bold], [chalk.dim], [chalk.red], and [yosay] with its options. *)
Variables (bold dim red yosay : string -> string).

(** The array [intro] when it is joined. *)
Definition intro (versions : list engine) : list string :=
  let intro :=
    [("Welcome to the " ++ bold "WYcreative Starter" ++ "!")%string;
     dim "(name pending)"; String.EmptyString] in
  let outdatedEngines :=
    List.filter (fun e => negb (hasMinimum e)) versions in
  if length outdatedEngines =? 0 then
    intro ++ ["We're going to start by filling some questions."%string]
  else
    let current :=
      map (fun e => match version e with
                    | Some v => (name e ++ " " ++ version_text v)%string
                    | None => ("no " ++ name e ++ " installed")%string
                    end) outdatedEngines in
    let minimum :=
      map (fun e => (name e ++ " " ++ minimum e)%string) outdatedEngines in
    intro ++
      [red ("You have " ++ ListFormat_en current ++ ",")%string;
       red ("but we need " ++ ListFormat_en minimum ++ ".")%string;
       String.EmptyString; "Stopping now..."%string].

(** [initializing()]: what it logs, and the code it exits with if it
    does. *)
Definition initializing (versions : list engine) : list string * option Z :=
  ([yosay (join_lines (intro versions))],
   if some (fun e => negb (hasMinimum e)) versions then Some 1%Z else None).

End Initializing.

(** Reading [version] of a version that is [null]. *)
Definition TypeError_version : error :=
  "TypeError: Cannot read properties of null (reading 'version')"%string.

(** What one turn of the loop over [versions] stores. *)
Definition engine_answer (projectVersion : SemVer) : string :=
  (Number_toString (major projectVersion)
   ++ (if (0 <? minor projectVersion)%N
       then "." ++ Number_toString (minor projectVersion) else ""))%string.

Definition project_version (version minimumVersion : SemVer) : SemVer :=
  if gt version minimumVersion then version else minimumVersion.

Section Configuring.

(** [semver.coerce] on the text of a range. *)
Variable coerce : string -> option SemVer.

(** [for (const [engine, {version, minimum}] of Object.entries(versions))
    { ... }]: the answers after the loop, and the error it threw if it
    did. *)
Fixpoint configure_versions (versions : list engine) (answers : object)
    : option error * object :=
  match versions with
  | [] => (None, answers)
  | e :: rest =>
      let minimumVersion := coerce (minimum e) in
      match version e, minimumVersion with
      | Some version, Some minimumVersion =>
          let projectVersion := project_version version minimumVersion in
          configure_versions rest
            (set (key e ++ "Version")%string (engine_answer projectVersion)
               answers)
      | _, _ => (Some TypeError_version, answers)
      end
  end.

End Configuring.

(** Engines as [versions] lists them, here with an old Node, and a
    [coerce] that reads the ranges of these engines. *)
Definition engines : list engine :=
  [ {| key := "gulpCli"; name := "Gulp CLI";
       version := Some {| major := 2; minor := 3; patch := 0 |};
       minimum := ">=2.3.0"; hasMinimum := true |};
    {| key := "node"; name := "Node";
       version := Some {| major := 14; minor := 17; patch := 6 |};
       minimum := ">=16.13.0"; hasMinimum := false |};
    {| key := "npm"; name := "npm";
       version := Some {| major := 8; minor := 0; patch := 3 |};
       minimum := ">=7.20.0"; hasMinimum := true |} ]%string.

Definition coerce_engines (range : string) : option SemVer :=
  if String.eqb range ">=2.3.0" then Some {| major := 2; minor := 3; patch := 0 |}
  else if String.eqb range ">=16.13.0" then Some {| major := 16; minor := 13; patch := 0 |}
  else if String.eqb range ">=7.20.0" then Some {| major := 7; minor := 20; patch := 0 |}
  else None.

(** Answers with a name and the twelve dates. *)
Definition answered : object :=
  ("name", "Shop")%string :: map (fun d => (d, "20221025"%string)) dates.

End Starter.

(* ================================================================== *)
(** * The generator: writing *)
(* ================================================================== *)

Module Writing.
Import Js.

(** An error object, as far as [writing()] looks at it. *)
Record exn := {
  (** [error.constructor.name] *)
  constructor_name : string;
  (** [error.message] *)
  message : string
}.

(** How a computation ends: it returns, it throws, or the process exits. *)
Inductive completion (A : Type) :=
| Normal (a : A)
| Thrown (e : exn)
| Exited (code : Z).
Arguments Normal {A} a.
Arguments Thrown {A} e.
Arguments Exited {A} code.

(** The calls on the generator that write files; the answers they are
    given play no part here. *)
Inductive operation :=
| RenderTemplate (source destination : string)
| SourceRoot (path : string)
| DestinationRoot (path : string)
| CopyTemplate (source destination : string) (ignore : list string).

(** A call [packageJson(name, {version, registryUrl})]; [tag] is [None]
    when no version is asked for. *)
Record request := {
  package : string;
  tag : option string;
  registryUrl : string
}.

(** What [writing()] calls and does not define. *)
Record services := {
  (** [fileURLToPath(new URL('.', import.meta.url))] *)
  here : string;
  (** [resolve(...)] of [node:path] *)
  resolve : list string -> string;
  (** A file-writing call of the generator: the error it throws, if any. *)
  template : operation -> option exn;
  (** [readFileSync(path).toString()] *)
  readFileSync : string -> exn + string;
  (** [packageJson(...)], destructured to the version *)
  packageJson : request -> exn + string;
  (** [this.addDevDependencies(devDependencies)] *)
  addDevDependencies : object -> exn + object
}.

(** The state [writing()] acts on. *)
Record process := {
  (** File-writing calls, oldest first. *)
  operations : list operation;
  (** Calls of [packageJson]. *)
  requests : list request;
  (** Lines written by [console.error]. *)
  console : list string;
  (** Objects passed to [addDevDependencies]. *)
  added : list object;
  (** Calls of [this.packageJson.set]. *)
  package_json : list (string * object)
}.

Definition start : process :=
  {| operations := []; requests := []; console := []; added := [];
     package_json := [] |}.

Definition W (A : Type) : Type := process -> completion A * process.

#[export] Instance W_ret : MRet W := fun A (a : A) p => (Normal a, p).
#[export] Instance W_bind : MBind W := fun A B (f : A -> W B) (m : W A) p =>
  match m p with
  | (Normal a, p') => f a p'
  | (Thrown e, p') => (Thrown e, p')
  | (Exited code, p') => (Exited code, p')
  end.

Definition throw {A} (e : exn) : W A := fun p => (Thrown e, p).

(** [exit(code)] of [node:process] *)
Definition exit {A} (code : Z) : W A := fun p => (Exited code, p).

Definition try_catch {A} (m : W A) (handler : exn -> W A) : W A := fun p =>
  match m p with
  | (Thrown e, p') => handler e p'
  | r => r
  end.

Definition call_template (sv : services) (op : operation) : W unit := fun p =>
  (match template sv op with Some e => Thrown e | None => Normal tt end,
   {| operations := operations p ++ [op]; requests := requests p;
      console := console p; added := added p;
      package_json := package_json p |}).

Definition call_readFileSync (sv : services) (path : string) : W string :=
  fun p =>
    (match readFileSync sv path with inl e => Thrown e | inr s => Normal s end,
     p).

Definition call_packageJson (sv : services) (r : request) : W string := fun p =>
  (match packageJson sv r with inl e => Thrown e | inr v => Normal v end,
   {| operations := operations p; requests := requests p ++ [r];
      console := console p; added := added p;
      package_json := package_json p |}).

Definition call_addDevDependencies (sv : services) (o : object) : W object :=
  fun p =>
    (match addDevDependencies sv o with
     | inl e => Thrown e
     | inr d => Normal d
     end,
     {| operations := operations p; requests := requests p;
        console := console p; added := added p ++ [o];
        package_json := package_json p |}).

Definition console_error (line : string) : W unit := fun p =>
  (Normal tt,
   {| operations := operations p; requests := requests p;
      console := console p ++ [line]; added := added p;
      package_json := package_json p |}).

Definition packageJson_set (path : string) (o : object) : W unit := fun p =>
  (Normal tt,
   {| operations := operations p; requests := requests p;
      console := console p; added := added p;
      package_json := package_json p ++ [(path, o)] |}).

Fixpoint for_of {A} (l : list A) (body : A -> W unit) : W unit :=
  match l with
  | [] => mret tt
  | x :: l' => body x ;; for_of l' body
  end.

(** [s.split('\n')] *)
Fixpoint split_lines (s : string) : list string :=
  match s with
  | String.EmptyString => [String.EmptyString]
  | String.String c s' =>
      if Ascii.eqb c (ascii_of_nat 10) then String.EmptyString :: split_lines s'
      else match split_lines s' with
           | line :: rest => String.String c line :: rest
           | [] => [String.String c String.EmptyString]
           end
  end.

(** [s.indexOf(part)] *)
Definition indexOf (s part : string) : Z :=
  match String.index 0 part s with
  | Some i => Z.of_nat i
  | None => -1
  end.

(** [s.slice(start)], where a negative [start] counts from the end. *)
Definition slice_at (s : string) (start : Z) : string :=
  let len := Z.of_nat (String.length s) in
  let from := if (start <? 0)%Z then Z.max (len + start) 0
              else Z.min start len in
  slice_from s (Z.to_nat from).

Definition frontendDirectory : string := "./FrontEnd".

(** The object [devDependencies] as [writing()] first builds it. *)
Definition devDependencies : object :=
  [("@babel/core", ""); ("@babel/preset-env", "");
   ("@wycreative/design-guide", ""); ("basic-ftp", "");
   ("browser-sync", ""); ("chalk", ""); ("conf", ""); ("cssnano", "");
   ("del", ""); ("execa", ""); ("globby", ""); ("gulp", "");
   ("gulp-babel", ""); ("gulp-imagemin", ""); ("gulp-plumber", "");
   ("gulp-postcss", ""); ("gulp-pug", ""); ("gulp-rename", "");
   ("gulp-rev", ""); ("gulp-rev-rewrite", ""); ("gulp-sass", "");
   ("gulp-svgstore", ""); ("gulp-uglify-es", ""); ("inquirer", "");
   ("ora", ""); ("postcss", ""); ("postcss-preset-env", ""); ("sass", "");
   ("semver", ""); ("xo", "")]%string.

Definition TypeError_slice : exn :=
  {| constructor_name := "TypeError";
     message := "Cannot read properties of undefined (reading 'slice')" |}.

(** [registryLine.slice(registryLine.indexOf('http')).trim()] *)
Definition registry_url (registryLine : option string) : W string :=
  match registryLine with
  | None => throw TypeError_slice
  | Some line => mret (trim (slice_at line (indexOf line "http")))
  end.

(** [await packageJson(name, {version, registryUrl: ...})] *)
Definition ask (sv : services) (registryLine : option string)
    (name : string) (version : option string) : W string :=
  url ← registry_url registryLine;
  call_packageJson sv {| package := name; tag := version; registryUrl := url |}.

(** The [try] statement of the loop over the private dependencies: the
    value of [version] after it. *)
Definition private_version (sv : services) (registryLine : option string)
    (name : string) : W string :=
  try_catch (ask sv registryLine name None)
    (fun error =>
       if String.eqb (constructor_name error) "VersionNotFoundError"
       then try_catch (ask sv registryLine name (Some "next"%string))
              (fun error => console_error (message error) ;; exit 1)
       else console_error (message error) ;; exit 1).

(** [for (const name of privateDependencies) { ... }] *)
Fixpoint for_private (sv : services) (registryLine : option string)
    (names : list string) (devDependencies : object) : W object :=
  match names with
  | [] => mret devDependencies
  | name :: rest =>
      version ← private_version sv registryLine name;
      for_private sv registryLine rest
        (set name ("^" ++ version)%string devDependencies)
  end.

(** The callback given to [then]: the versions found fill the entries that
    are still empty. *)
Definition fill (devDependencies dependencies : object) : object :=
  foldl (fun devDependencies entry =>
           match get entry.1 devDependencies with
           | Some String.EmptyString =>
               set entry.1 ("^" ++ entry.2)%string devDependencies
           | _ => devDependencies
           end) devDependencies dependencies.

(** [async writing()]; [themes] is [this.answers.themes]. *)
Definition writing (sv : services) (themes : bool) : W unit :=
  call_template sv (RenderTemplate "_vscode/**" ".vscode") ;;
  call_template sv
    (SourceRoot (resolve sv [here sv; "../../generators/app/templates/"%string;
                             frontendDirectory])) ;;
  call_template sv (DestinationRoot frontendDirectory) ;;
  for_of ["config"; "gulp"; "src"]%string (fun directory =>
    call_template sv
      (RenderTemplate ("./" ++ directory ++ "/**") ("./" ++ directory))%string) ;;
  for_of ["editorconfig"; "gitignore"; "npmrc"; "nvmrc"]%string (fun file =>
    call_template sv (RenderTemplate ("./_" ++ file) ("./." ++ file))%string) ;;
  call_template sv (RenderTemplate "_package.json" "package.json") ;;
  call_template sv (RenderTemplate "gulpfile.js" "gulpfile.js") ;;
  call_template sv (RenderTemplate "README.md" "README.md") ;;
  call_template sv
    (CopyTemplate "**/.gitkeep" "./"
       [if themes then String.EmptyString else "**/themes/.gitkeep"%string]) ;;
  let npmrcPath := resolve sv [here sv; "../../.npmrc"%string] in
  npmrcFile ← call_readFileSync sv npmrcPath;
  let registryLine :=
    List.find (fun line => startsWith line "@wycreative")
      (split_lines npmrcFile) in
  let privateDependencies :=
    List.filter (fun name => startsWith name "@wycreative")
      (keys devDependencies) in
  devDependencies ←
    for_private sv registryLine privateDependencies devDependencies;
  dependencies ← call_addDevDependencies sv devDependencies;
  packageJson_set "devDependencies" (fill devDependencies dependencies).

(** The one private dependency. *)
Definition design_guide : string := "@wycreative/design-guide".

(** The steps of [writing()] after the files are written. *)
Definition dependencies_part (sv : services) : W unit :=
  let npmrcPath := resolve sv [here sv; "../../.npmrc"%string] in
  npmrcFile ← call_readFileSync sv npmrcPath;
  let registryLine :=
    List.find (fun line => startsWith line "@wycreative")
      (split_lines npmrcFile) in
  devDependencies ←
    for_private sv registryLine [design_guide] devDependencies;
  dependencies ← call_addDevDependencies sv devDependencies;
  packageJson_set "devDependencies" (fill devDependencies dependencies).

(** The file-writing steps of [writing()]. *)
Definition files_part (sv : services) (themes : bool) : W unit :=
  call_template sv (RenderTemplate "_vscode/**" ".vscode") ;;
  call_template sv
    (SourceRoot (resolve sv [here sv; "../../generators/app/templates/"%string;
                             frontendDirectory])) ;;
  call_template sv (DestinationRoot frontendDirectory) ;;
  for_of ["config"; "gulp"; "src"]%string (fun directory =>
    call_template sv
      (RenderTemplate ("./" ++ directory ++ "/**") ("./" ++ directory))%string) ;;
  for_of ["editorconfig"; "gitignore"; "npmrc"; "nvmrc"]%string (fun file =>
    call_template sv (RenderTemplate ("./_" ++ file) ("./." ++ file))%string) ;;
  call_template sv (RenderTemplate "_package.json" "package.json") ;;
  call_template sv (RenderTemplate "gulpfile.js" "gulpfile.js") ;;
  call_template sv (RenderTemplate "README.md" "README.md") ;;
  call_template sv
    (CopyTemplate "**/.gitkeep" "./"
       [if themes then String.EmptyString else "**/themes/.gitkeep"%string]).

(** A computation that touches nothing but the list of file-writing calls
    and never exits. *)
Definition frame (p p' : process) : Prop :=
  requests p' = requests p /\ console p' = console p /\
  added p' = added p /\ package_json p' = package_json p.

Definition writes_files {A} (m : W A) : Prop :=
  forall p, frame p (m p).2 /\ forall code, (m p).1 <> Exited code.

(** A computation that returns from every state. *)
Definition returns (m : W unit) : Prop := forall p, (m p).1 = Normal tt.

(** A generator whose files are written without an error, whose [.npmrc]
    names a registry for the private scope, and whose registry knows the
    private package under the tag [next] only. *)
Definition npmrc : string :=
  ("engine-strict=true" ++ String.String (ascii_of_nat 10)
   ("@wycreative:registry=https://npm.pkg.github.com/"
    ++ String.String (ascii_of_nat 10) ""))%string.

Definition VersionNotFoundError : exn :=
  {| constructor_name := "VersionNotFoundError";
     message := "Version `latest` for package `@wycreative/design-guide` could not be found" |}.

Definition prerelease : services :=
  {| here := "/starter/generators/app/";
     resolve := fun parts => Posix.normalize (Posix.glue parts);
     template := fun _ => None;
     readFileSync := fun _ => inr npmrc;
     packageJson := fun r =>
       match tag r with
       | None => inl VersionNotFoundError
       | Some _ => inr "2.0.0-next.1"%string
       end;
     addDevDependencies := fun o =>
       inr (map (fun entry => (entry.1, "1.0.0"%string)) o) |}.

(** The same generator with an [.npmrc] that names no registry for the
    private scope. *)
Definition unscoped : services :=
  {| here := here prerelease;
     resolve := resolve prerelease;
     template := template prerelease;
     readFileSync := fun _ =>
       inr ("engine-strict=true" ++ String.String (ascii_of_nat 10) "")%string;
     packageJson := packageJson prerelease;
     addDevDependencies := addDevDependencies prerelease |}.

End Writing.

(* ================================================================== *)
(** * Properties of the combinators *)
(* ================================================================== *)

Module GulpFacts.
Import Gulp.

Section Facts.
Context {T : Type}.
Variable env : T -> behaviour.

(** Induction over compositions, with the hypothesis for every child. *)
Lemma node_induction (P : node T -> Prop) :
  (forall t, P (Leaf t)) ->
  (forall ns, Forall P ns -> P (Series ns)) ->
  (forall ns, Forall P ns -> P (Parallel ns)) ->
  forall n, P n.
Proof.
  intros HL HS HP. fix IH 1. intros [t|ns|ns].
  - apply HL.
  - apply HS. induction ns as [|c ns IHns]; constructor; [apply IH | exact IHns].
  - apply HP. induction ns as [|c ns IHns]; constructor; [apply IH | exact IHns].
Qed.

Lemma chain_cons (run : node T -> list nat -> nat -> report T) p i c ns t :
  chain run p i (c :: ns) t =
    let r := run c (p ++ [i]) t in
    match signal r with
    | Ok =>
        let r' := chain run p (S i) ns (signal_at r) in
        {| events := events r ++ events r';
           signal_at := signal_at r'; signal := signal r' |}
    | Err e => r
    end.
Proof. reflexivity. Qed.

Lemma run_series ns p t0 :
  run env (Series ns) p t0 = chain (run env) p 0 ns t0.
Proof. reflexivity. Qed.

Lemma events_barrier t (rs : list (report T)) :
  events (barrier t rs) = concat (map events rs).
Proof. unfold barrier. destruct (first_failure rs) as [[? ?]|]; reflexivity. Qed.

(** Only task units of the composition appear in its run. *)
Lemma run_tasks n : forall p t0 te,
  te ∈ events (run env n p t0) -> task_of te.2 ∈ tasks_of n.
Proof.
  induction n as [t|ns IH|ns IH] using node_induction; intros p t0 te Hin.
  - cbn in Hin. apply list_elem_of_In in Hin. cbn.
    destruct Hin as [<-|[<-|[]]]; cbn; apply list_elem_of_here.
  - cbn in Hin |- *. revert t0 Hin. generalize 0.
    induction IH as [|c ns Hc _ IHns]; intros i t0 Hin.
    + cbn in Hin. by apply elem_of_nil in Hin.
    + rewrite chain_cons in Hin. cbn in Hin |- *. apply elem_of_app.
      destruct (signal (run env c (p ++ [i]) t0)).
      * cbn in Hin. apply elem_of_app in Hin as [Hin|Hin]; [left; eauto|right; eauto].
      * left; eauto.
  - cbn in Hin |- *. rewrite events_barrier in Hin. revert Hin. generalize 0.
    induction IH as [|c ns Hc _ IHns]; intros i Hin.
    + cbn in Hin. by apply elem_of_nil in Hin.
    + cbn in Hin |- *. apply elem_of_app.
      apply elem_of_app in Hin as [Hin|Hin]; [left; eauto|right; eauto].
Qed.

(** ** A series of leaves *)

(** Every action of the children [off, off + 1, ...] of a series happens
    at or after the start of the first of them, at one of their
    positions. *)
Lemma chain_leaves_bounds p ts : forall off t0 te,
  te ∈ events (chain (run env) p off (map Leaf ts) t0) ->
  t0 <= te.1 /\
  exists j, off <= j < off + length ts /\ path_of te.2 = p ++ [j].
Proof.
  induction ts as [|t ts IH]; intros off t0 te Hin.
  - cbn in Hin. by apply elem_of_nil in Hin.
  - rewrite map_cons, chain_cons in Hin. cbn -[chain] in Hin.
    assert (Hleaf : forall te', te' ∈ [(t0, Started (p ++ [off]) t);
               (t0 + duration (env t),
                Finished (p ++ [off]) t (outcome (env t)))] ->
             t0 <= te'.1 /\ path_of te'.2 = p ++ [off]).
    { intros te' H'. apply list_elem_of_In in H'.
      destruct H' as [<-|[<-|[]]]; cbn; split; (lia || reflexivity). }
    destruct (outcome (env t)).
    + cbn -[chain] in Hin.
      apply elem_of_cons in Hin as [->|Hin].
      { split; [cbn; lia|]. exists off. cbn. split; [lia|done]. }
      apply elem_of_cons in Hin as [->|Hin].
      { split; [cbn; lia|]. exists off. cbn. split; [lia|done]. }
      apply IH in Hin as [? (j & ? & ?)]. split; [lia|].
      exists j. cbn. split; [lia|done].
    + cbn in Hin. apply Hleaf in Hin as [? ?]. split; [done|].
      exists off. cbn. split; [lia|done].
Qed.

Lemma path_snoc_inj (p : list nat) i j : p ++ [i] = p ++ [j] -> i = j.
Proof. intros H. apply app_inv_head in H. congruence. Qed.

Ltac path_clash :=
  repeat match goal with
  | H : ?p ++ [_] = ?p ++ [_] |- _ => apply path_snoc_inj in H
  end; lia.

(** Ordering: when child [i + 1] is started, child [i] has signalled
    success, no later than that start. *)
Lemma chain_leaves_order p ts : forall off t0 i t t' s',
  ts !! i = Some t ->
  (s', Started (p ++ [off + S i]) t')
    ∈ events (chain (run env) p off (map Leaf ts) t0) ->
  exists f,
    (f, Finished (p ++ [off + i]) t Ok)
      ∈ events (chain (run env) p off (map Leaf ts) t0) /\ f <= s'.
Proof.
  induction ts as [|t1 ts IH]; intros off t0 i t t' s' Hi Hin; [done|].
  rewrite map_cons, chain_cons in Hin |- *. cbn -[chain] in Hin |- *.
  destruct (outcome (env t1)) eqn:Ho; cbn -[chain] in Hin |- *.
  - apply elem_of_cons in Hin as [Hin|Hin]; [simplify_eq; path_clash|].
    apply elem_of_cons in Hin as [Hin|Hin]; [simplify_eq|].
    destruct i as [|i].
    + cbn in Hi. simplify_eq. exists (t0 + duration (env t)).
      split.
      * rewrite Nat.add_0_r. apply list_elem_of_further, list_elem_of_here.
      * apply chain_leaves_bounds in Hin as [? _]. done.
    + cbn in Hi. replace (off + S (S i)) with (S off + S i) in Hin by lia.
      destruct (IH _ _ _ _ _ _ Hi Hin) as (f & Hf & Hle).
      exists f. split; [|done].
      replace (off + S i) with (S off + i) by lia.
      by do 2 apply list_elem_of_further.
  - exfalso.
    apply elem_of_cons in Hin as [Hin|Hin]; [simplify_eq; path_clash|].
    apply elem_of_cons in Hin as [Hin|Hin]; [simplify_eq|].
    by apply elem_of_nil in Hin.
Qed.

(** Failure: when child [k] signals an error, the series ends there with
    that error and no later child is ever started. *)
Lemma chain_leaves_failure p ts : forall off t0 k t e f,
  (f, Finished (p ++ [off + k]) t (Err e))
    ∈ events (chain (run env) p off (map Leaf ts) t0) ->
  let r := chain (run env) p off (map Leaf ts) t0 in
  signal r = Err e /\ signal_at r = f /\
  forall j s t', off + k < j -> (s, Started (p ++ [j]) t') ∉ events r.
Proof.
  induction ts as [|t1 ts IH]; intros off t0 k t e f Hin.
  { cbn in Hin. by apply elem_of_nil in Hin. }
  rewrite map_cons, chain_cons in Hin |- *. cbn -[chain] in Hin |- *.
  destruct (outcome (env t1)) eqn:Ho; cbn -[chain] in Hin |- *.
  - apply elem_of_cons in Hin as [Hin|Hin]; [simplify_eq|].
    apply elem_of_cons in Hin as [Hin|Hin]; [simplify_eq|].
    destruct k as [|k].
    + apply chain_leaves_bounds in Hin as [_ (j & Hj & Hp)].
      cbn in Hp. path_clash.
    + replace (off + S k) with (S off + k) in Hin by lia.
      destruct (IH _ _ _ _ _ _ Hin) as (Hs & Ht & Hno).
      split; [done|]. split; [done|].
      intros j s t' Hj Hin'.
      apply elem_of_cons in Hin' as [Hin'|Hin']; [simplify_eq; path_clash|].
      apply elem_of_cons in Hin' as [Hin'|Hin']; [simplify_eq|].
      apply (Hno j s t'); [lia|done].
  - apply elem_of_cons in Hin as [Hin|Hin]; [simplify_eq|].
    apply elem_of_cons in Hin as [Hin|Hin];
      [|by apply elem_of_nil in Hin].
    simplify_eq. split; [done|]. split; [done|].
    intros j s t' Hj Hin'.
    assert (k = 0) as -> by path_clash.
    apply elem_of_cons in Hin' as [Hin'|Hin']; [simplify_eq; path_clash|].
    apply elem_of_cons in Hin' as [Hin'|Hin']; [simplify_eq|].
    by apply elem_of_nil in Hin'.
Qed.

(** Progress: a child whose predecessors all succeed is started and
    signals its own outcome. *)
Lemma chain_leaves_reach p ts : forall off t0 k t,
  ts !! k = Some t ->
  (forall j t', j < k -> ts !! j = Some t' -> outcome (env t') = Ok) ->
  exists s,
    (s, Started (p ++ [off + k]) t)
      ∈ events (chain (run env) p off (map Leaf ts) t0) /\
    (s + duration (env t), Finished (p ++ [off + k]) t (outcome (env t)))
      ∈ events (chain (run env) p off (map Leaf ts) t0).
Proof.
  induction ts as [|t1 ts IH]; intros off t0 k t Hk Hprev; [done|].
  rewrite map_cons, chain_cons. cbn -[chain].
  destruct k as [|k].
  - cbn in Hk. simplify_eq. rewrite Nat.add_0_r. exists t0.
    destruct (outcome (env t)); cbn -[chain];
      (split; [apply list_elem_of_here
              |apply list_elem_of_further, list_elem_of_here]).
  - cbn in Hk.
    rewrite (Hprev 0 t1) by (lia || done). cbn -[chain].
    destruct (IH (S off) (t0 + duration (env t1)) k t Hk) as (s & Hs & Hf).
    { intros j t' Hj Hl. apply (Hprev (S j) t'); [lia|done]. }
    exists s. replace (off + S k) with (S off + k) by lia.
    split; by do 2 apply list_elem_of_further.
Qed.

(** C7: in a series of leaves, leaf [i + 1] is started only after leaf
    [i] has signalled completion (with success); a leaf whose predecessors
    succeed is run; and when leaf [k] signals an error, the series fails
    at that moment with that error and no later leaf is ever started. *)
Theorem series_of_leaves_in_order (ts : list T) (p : list nat) (t0 : nat) :
  let r := run env (Series (map Leaf ts)) p t0 in
  (forall i t t' s',
      ts !! i = Some t ->
      (s', Started (p ++ [S i]) t') ∈ events r ->
      exists f, (f, Finished (p ++ [i]) t Ok) ∈ events r /\ f <= s') /\
  (forall k t,
      ts !! k = Some t ->
      (forall j t', j < k -> ts !! j = Some t' -> outcome (env t') = Ok) ->
      exists s,
        (s, Started (p ++ [k]) t) ∈ events r /\
        (s + duration (env t), Finished (p ++ [k]) t (outcome (env t)))
          ∈ events r) /\
  (forall k t e f,
      (f, Finished (p ++ [k]) t (Err e)) ∈ events r ->
      signal r = Err e /\ signal_at r = f /\
      forall j s t', k < j -> (s, Started (p ++ [j]) t') ∉ events r).
Proof.
  cbn zeta. rewrite run_series. split; [|split].
  - intros i t t' s' Hi Hin.
    apply (chain_leaves_order p ts 0 t0 i t t' s' Hi Hin).
  - intros k t Hk Hprev.
    apply (chain_leaves_reach p ts 0 t0 k t Hk Hprev).
  - intros k t e f Hin.
    apply (chain_leaves_failure p ts 0 t0 k t e f Hin).
Qed.

End Facts.
End GulpFacts.

(* ================================================================== *)
(** * The watch entry point *)
(* ================================================================== *)

Module WatchFacts.
Import Gulp Watch GulpFacts.

Lemma routes_eq :
  routes =
    [ {| globs := config_src_styles; composition := Leaf styles_build |};
      {| globs := config_src_fonts;
         composition := Series [Leaf fonts_build; Leaf reload] |};
      {| globs := config_src_symbols;
         composition := Series [Leaf symbols_build; Leaf reload] |};
      {| globs := config_src_images;
         composition := Series [Leaf images_build; Leaf reload] |};
      {| globs := config_libs;
         composition := Series [Leaf libs_build; Leaf reload] |};
      {| globs := config_src_scripts;
         composition := Series [Leaf scripts_build; Leaf reload] |};
      {| globs := config_src_views_0;
         composition :=
           Series [Parallel [Leaf views_build; Leaf guide_build]; Leaf reload] |};
      {| globs := config_guide;
         composition := Series [Leaf guide_build; Leaf reload] |} ].
Proof. reflexivity. Qed.

(** A run of a composition that does not contain [reload] calls the
    notifier not at all. *)
Lemma no_notify env c p t0 :
  reload ∉ tasks_of c ->
  filter (fun te => is_notify te = true) (events (run env c p t0)) = [].
Proof.
  intros Hfree.
  destruct (filter _ _) as [|te l] eqn:Hf; [done|exfalso].
  assert (Hin : te ∈ filter (fun te => is_notify te = true)
                       (events (run env c p t0))).
  { rewrite Hf. apply list_elem_of_here. }
  apply list_elem_of_filter in Hin as [Hn Hin].
  apply run_tasks in Hin. apply Hfree.
  destruct te as [s [q t|q t r]]; cbn in *; [|done].
  by destruct t.
Qed.

(** [series(c, reload)]: the notifier is called once when [c] signals
    success, and not at all when [c] signals an error. *)
Lemma notify_count_then_reload env c p t0 :
  reload ∉ tasks_of c ->
  notify_count (run env (Series [c; Leaf reload]) p t0) =
    if is_ok (signal (run env c (p ++ [0]) t0)) then 1 else 0.
Proof.
  intros Hfree. unfold notify_count.
  rewrite run_series, chain_cons. cbn zeta.
  destruct (signal (run env c (p ++ [0]) t0)) eqn:Hs; cbn.
  - destruct (outcome (env reload)); cbn;
      rewrite filter_app, (no_notify env c _ _ Hfree); reflexivity.
  - by rewrite (no_notify env c _ _ Hfree).
Qed.

(** Every Route but the one of the styles is [series(c, reload)] for a
    composition [c] without [reload]. *)
Lemma route_shape r :
  r ∈ routes -> globs r <> config_src_styles ->
  exists c, composition r = Series [c; Leaf reload] /\ reload ∉ tasks_of c.
Proof.
  rewrite routes_eq. intros Hin Hne.
  repeat (apply elem_of_cons in Hin as [->|Hin]; [
    first [ done
          | eexists; split; [reflexivity|]; cbn;
            rewrite !elem_of_cons, elem_of_nil; intuition discriminate ] |]).
  by apply elem_of_nil in Hin.
Qed.

(** ** Runs of the registered Routes *)

(** The fonts Route: [reload] starts when [fonts:build] has completed. *)
Example fonts_run :
  run_route quiet fonts_route 10 =
    {| events := [(10, Started [0] fonts_build);
                  (11, Finished [0] fonts_build Ok);
                  (11, Started [1] reload);
                  (12, Finished [1] reload Ok)];
       signal_at := 12; signal := Ok |}.
Proof. reflexivity. Qed.

(** The fonts Route with a failing build step: [reload] is not started. *)
Example fonts_run_broken :
  run_route broken fonts_route 10 =
    {| events := [(10, Started [0] fonts_build);
                  (11, Finished [0] fonts_build (Err "build failed"))];
       signal_at := 11; signal := Err "build failed" |}.
Proof. reflexivity. Qed.

(** The views Route: both build steps start at once, [reload] starts when
    the slower of the two has completed. *)
Example views_run :
  let env t :=
    match t with
    | views_build => {| duration := 5; outcome := Ok |}
    | _ => {| duration := 2; outcome := Ok |}
    end in
  run_route env views_route 0 =
    {| events := [(0, Started [0; 0] views_build);
                  (5, Finished [0; 0] views_build Ok);
                  (0, Started [0; 1] guide_build);
                  (2, Finished [0; 1] guide_build Ok);
                  (5, Started [1] reload);
                  (7, Finished [1] reload Ok)];
       signal_at := 7; signal := Ok |}.
Proof. reflexivity. Qed.

(** The views Route when the guide build fails first: the series ends with
    that error at that moment, [views:build] still runs to its end, and
    [reload] is not started. *)
Example views_run_guide_fails :
  let env t :=
    match t with
    | views_build => {| duration := 5; outcome := Ok |}
    | guide_build => {| duration := 2; outcome := Err "guide" |}
    | _ => {| duration := 1; outcome := Ok |}
    end in
  run_route env views_route 0 =
    {| events := [(0, Started [0; 0] views_build);
                  (5, Finished [0; 0] views_build Ok);
                  (0, Started [0; 1] guide_build);
                  (2, Finished [0; 1] guide_build (Err "guide"))];
       signal_at := 2; signal := Err "guide" |}.
Proof. reflexivity. Qed.

Lemma styles_route_registered : styles_route ∈ routes.
Proof. rewrite routes_eq. apply list_elem_of_here. Qed.

Lemma fonts_route_registered : fonts_route ∈ routes.
Proof. rewrite routes_eq. apply list_elem_of_further, list_elem_of_here. Qed.

Lemma views_route_registered : views_route ∈ routes.
Proof. rewrite routes_eq. do 6 apply list_elem_of_further. apply list_elem_of_here. Qed.

Lemma guide_route_registered : guide_route ∈ routes.
Proof. rewrite routes_eq. do 7 apply list_elem_of_further. apply list_elem_of_here. Qed.

(** C1, as stated, fails: the Route of the styles is registered with the
    bare task [styles.build], so a successful run of it calls the reload
    notifier zero times; and a run of the fonts Route whose build step fails
    ends without a call of the notifier. *)
Lemma styles_run_without_notify :
  styles_route ∈ routes /\
  signal (run_route quiet styles_route 0) = Ok /\
  notify_count (run_route quiet styles_route 0) = 0 /\
  fonts_route ∈ routes /\
  notify_count (run_route broken fonts_route 0) = 0.
Proof.
  split; [exact styles_route_registered|].
  split; [reflexivity|]. split; [reflexivity|].
  split; [exact fonts_route_registered|reflexivity].
Qed.

(** C1 (amended): for every Route the watch entry point registers, other
    than the Route of the styles, a run of the Route's composition that
    completes with success calls the reload notifier exactly once, whatever
    the number of leaves of the composition. *)
Theorem notify_once_per_successful_run r env t0 :
  r ∈ routes -> globs r <> config_src_styles ->
  signal (run_route env r t0) = Ok ->
  notify_count (run_route env r t0) = 1.
Proof.
  intros Hin Hne Hok.
  destruct (route_shape r Hin Hne) as (c & Hc & Hfree).
  unfold run_route in *. rewrite Hc in *.
  rewrite (notify_count_then_reload env c [] t0 Hfree).
  rewrite run_series, chain_cons in Hok. cbn zeta in Hok.
  destruct (signal (run env c ([] ++ [0]) t0)) eqn:Hs; [reflexivity|].
  rewrite Hs in Hok. congruence.
Qed.

Lemma notify_once_per_successful_run_views :
  leaves (composition views_route) = 3 /\
  notify_count (run_route quiet views_route 0) = 1.
Proof.
  split; [reflexivity|].
  apply (notify_once_per_successful_run views_route quiet 0).
  - exact views_route_registered.
  - discriminate.
  - reflexivity.
Defined.

(** C2, as stated, fails: a change of a styles file triggers one run, and
    that run is the single task [styles.build]: its two actions are the
    start and the completion of that task, and none is a call of the reload
    notifier. *)
Lemma styles_change_runs_no_series :
  on_change routes styles_only = [styles_route] /\
  composition styles_route = Leaf styles_build /\
  events (run_route quiet styles_route 0) =
    [(0, Started [] styles_build); (1, Finished [] styles_build Ok)] /\
  notify_count (run_route quiet styles_route 0) = 0.
Proof. repeat split; reflexivity. Qed.

(** C2 (amended): for the Route bound to the styles glob, a change of any
    matching file triggers exactly one run of that Route, the run consists
    of the single task unit [styles.build], started and completed once, and
    it contains no call of the reload notifier. *)
Theorem styles_change_runs_styles_build matches env t0 :
  matches config_src_styles = true ->
  filter (fun r => globs r = config_src_styles) (on_change routes matches)
    = [styles_route] /\
  events (run_route env styles_route t0) =
    [(t0, Started [] styles_build);
     (t0 + duration (env styles_build),
      Finished [] styles_build (outcome (env styles_build)))] /\
  notify_count (run_route env styles_route t0) = 0.
Proof.
  intros Hm. split; [|split; reflexivity].
  rewrite routes_eq. unfold on_change. rewrite list_filter_filter.
  rewrite filter_cons_True by (split; [reflexivity|exact Hm]).
  repeat rewrite filter_cons_False by (intros [? _]; discriminate).
  reflexivity.
Qed.

Lemma styles_change_runs_styles_build_once :
  filter (fun r => globs r = config_src_styles) (on_change routes styles_only)
    = [styles_route] /\
  events (run_route quiet styles_route 5) =
    [(5, Started [] styles_build); (6, Finished [] styles_build Ok)] /\
  notify_count (run_route quiet styles_route 5) = 0.
Proof.
  apply (styles_change_runs_styles_build styles_only quiet 5). reflexivity.
Defined.

(** C3, as stated, fails: in a run of the guide Route whose build step
    fails, the series ends with the error of the build step and the reload
    notifier is not called. *)
Lemma failed_guide_run_without_notify :
  guide_route ∈ routes /\
  signal (run_route broken guide_route 0) = Err "build failed" /\
  notify_count (run_route broken guide_route 0) = 0.
Proof.
  split; [exact guide_route_registered|]. split; reflexivity.
Qed.

(** C3 (amended): every Route but the one of the styles is registered as
    [series(c, reload)]; in a run of it the reload notifier is called
    exactly once when the build composition [c] signals success and is not
    called when [c] signals an error. *)
Theorem notify_iff_build_succeeds r env t0 :
  r ∈ routes -> globs r <> config_src_styles ->
  exists c,
    composition r = Series [c; Leaf reload] /\
    notify_count (run_route env r t0) =
      if is_ok (signal (run env c [0] t0)) then 1 else 0.
Proof.
  intros Hin Hne.
  destruct (route_shape r Hin Hne) as (c & Hc & Hfree).
  exists c. split; [exact Hc|].
  unfold run_route. rewrite Hc.
  apply (notify_count_then_reload env c [] t0 Hfree).
Qed.

Lemma notify_iff_build_succeeds_guide :
  exists c,
    composition guide_route = Series [c; Leaf reload] /\
    notify_count (run_route broken guide_route 0) =
      if is_ok (signal (run broken c [0] 0)) then 1 else 0.
Proof.
  apply (notify_iff_build_succeeds guide_route broken 0).
  - exact guide_route_registered.
  - discriminate.
Defined.

End WatchFacts.

(* ================================================================== *)
(** * The guide build *)
(* ================================================================== *)

Module GuideFacts.
Import Guide.

(** ** Paths and keys *)

Example extname_samples :
  map Posix.extname
    ["index.js"; "index.coffee.md"; "index."; "index"; ".index"; ".index.md";
     "a/b.c/d"; ".."]%string
  = [".js"; ".md"; "."; ""; ""; ".md"; ""; ""]%string.
Proof. reflexivity. Qed.

Example basename_samples :
  Posix.basename "/foo/bar/quux.html" "" = "quux.html"%string /\
  Posix.basename "/foo/bar/quux.html" ".html" = "quux"%string /\
  Posix.basename "aaa" "a" = "aa"%string /\
  Posix.basename "a/b.js/" ".js" = "b"%string.
Proof. repeat split; reflexivity. Qed.

Example join_samples :
  map (Posix.join "..") ["src/guide/index.js"; "./x.js"; "../y"; ""]%string
  = ["../src/guide/index.js"; "../x.js"; "../../y"; ".."]%string.
Proof. reflexivity. Qed.

Example key_of_samples :
  map key_of sample_files = ["index"; "button"; "card"]%string /\
  key_of "src/guide/form.field.js" = "form.field"%string /\
  key_of "src/guide/.hidden" = ".hidden"%string.
Proof. repeat split; reflexivity. Qed.

(** ** Selection of the index file *)

Example split_index_samples :
  split_index sample_files
    = (["src/guide/index.js"], ["src/guide/button.js"; "src/guide/card.js"])%string /\
  split_index ["a.js"; "reindex.js"; "index.js"]%string
    = (["reindex.js"], ["a.js"; "index.js"])%string /\
  split_index ["a.js"; "b.js"]%string = (["b.js"], ["a.js"])%string /\
  split_index [] = ([], []).
Proof. repeat split; reflexivity. Qed.







(** ** One load *)


Lemma answer_hit c w s r :
  module_map w !! s = Some r -> answer c w s = r.
Proof. unfold answer. by intros ->. Qed.

(** One import: the path is joined, the clock is read once, the loaders
    answer, and the module map holds the answer from then on. *)
Lemma import_now_answer c f w :
  let s := (Posix.join ".." f, date_now c (date_calls w)) in
  import_now c (Some f) w =
    (match answer c w s with inl e => inl e | inr v => inr (s, v) end,
     {| module_map := <[s := answer c w s]> (module_map w);
        require_cache := required c w s;
        import_log := import_log w ++ [s];
        date_calls := S (date_calls w);
        render_log := render_log w;
        console := console w;
        done_calls := done_calls w |}).
Proof.
  cbn zeta.
  unfold import_now, join_up, Date_now, import, mbind, M_bind, mret, M_ret.
  cbn -[Posix.join answer required].
  set (s := (Posix.join ".." f, date_now c (date_calls w))).
  assert (Hrq : required c
            {| module_map := module_map w; require_cache := require_cache w;
               import_log := import_log w; date_calls := S (date_calls w);
               render_log := render_log w; console := console w;
               done_calls := done_calls w |} s = required c w s)
    by reflexivity.
  assert (Han : answer c
            {| module_map := module_map w; require_cache := require_cache w;
               import_log := import_log w; date_calls := S (date_calls w);
               render_log := render_log w; console := console w;
               done_calls := done_calls w |} s = answer c w s)
    by reflexivity.
  rewrite Hrq, Han.
  destruct (module_map w !! s) as [r|] eqn:Hl.
  - rewrite insert_id by (by rewrite (answer_hit c w s r Hl)).
    by destruct (answer c w s).
  - by destruct (answer c w s).
Qed.

(** An import changes no answer. *)
Lemma answer_kept c w w' s :
  module_map w' = <[s := answer c w s]> (module_map w) ->
  require_cache w' = required c w s ->
  forall s', answer c w' s' = answer c w s'.
Proof.
  intros Hm Hr s'. unfold answer at 1. rewrite Hm, Hr.
  destruct (decide (s = s')) as [<-|Hne]; [by rewrite lookup_insert_eq|].
  rewrite lookup_insert_ne by done. unfold answer.
  destruct (module_map w !! s') as [r|]; [done|].
  destruct (commonjs c s'.1); [|done].
  unfold required.
  destruct (module_map w !! s); [done|].
  destruct (commonjs c s.1); [|done].
  destruct (require_cache w !! s.1) as [v|] eqn:Hc; [done|].
  destruct (evaluate c s.1) as [e|v] eqn:He; [done|].
  destruct (decide (s.1 = s'.1)) as [Heq|Hn].
  - rewrite Heq, lookup_insert_eq. by rewrite <- Heq, Hc, He.
  - by rewrite lookup_insert_ne.
Qed.

Lemma settle_lookup_self c ref g g0 m :
  m !! ref = Some (inr g0) -> settle c ref g m !! ref = Some (inr g).
Proof.
  intros Hg. unfold settle. destruct (commonjs c ref.1).
  - rewrite map_lookup_imap, Hg. cbn.
    by rewrite bool_decide_eq_true_2.
  - apply lookup_insert_eq.
Qed.





(** ** Assignments *)





(** ** The loop *)

Lemma for_of_cons {A} (x : A) l body w :
  for_of (x :: l) body w =
    match body x w with
    | (inr _, w') => for_of l body w'
    | (inl e, w') => (inl e, w')
    end.
Proof.
  cbn. unfold mbind, M_bind. by destruct (body x w) as [[e|[]] w'].
Qed.

Lemma for_of_app {A} (l1 l2 : list A) body w :
  for_of (l1 ++ l2) body w =
    match for_of l1 body w with
    | (inr _, w1) => for_of l2 body w1
    | (inl e, w1) => (inl e, w1)
    end.
Proof.
  revert w. induction l1 as [|x l1 IH]; intros w; [done|].
  rewrite <- app_comm_cons, !for_of_cons.
  destruct (body x w) as [[e|[]] w1]; [done|apply IH].
Qed.




(** ** The aggregate *)







(** ** The loader and the task *)


(** The renderer is called once, with the object [guide] refers to; what
    it throws is written to the console and goes no further. *)
Lemma render_spec c pkg guide g w :
  module_map w !! guide = Some (inr g) ->
  render c pkg guide w =
    (inr tt,
     {| module_map := module_map w;
        require_cache := require_cache w;
        import_log := import_log w;
        date_calls := date_calls w;
        render_log := render_log w ++ [(pkg, g)];
        console := console w ++
                   match generateGuide c pkg g with
                   | Some e => [(skipping, e)]
                   | None => []
                   end;
        done_calls := done_calls w |}).
Proof.
  intros Hg.
  unfold render, try_catch, deref, call_generateGuide, console_error,
    mbind, M_bind.
  rewrite Hg. destruct (generateGuide c pkg g); cbn; [done|].
  by rewrite app_nil_r.
Qed.



(** ** What every path through the task keeps *)

Section Keeps.
Variable P : world -> Prop.

Lemma keeps_ret {A} (a : A) : keeps P (mret a).
Proof. intros w r w' [= <- <-] HP. exact HP. Qed.

Lemma keeps_throw {A} e : keeps P (@throw A e).
Proof. intros w r w' [= <- <-] HP. exact HP. Qed.

Lemma keeps_lift {A} (x : error + A) : keeps P (lift x).
Proof. intros w r w' [= <- <-] HP. exact HP. Qed.

Lemma keeps_bind {A B} (m : M A) (f : A -> M B) :
  keeps P m -> (forall a, keeps P (f a)) -> keeps P (m ≫= f).
Proof.
  intros Hm Hf w r w' Hrun HP. unfold mbind, M_bind in Hrun.
  destruct (m w) as [[e|a] w1] eqn:Hmw.
  - injection Hrun as <- <-. exact (Hm _ _ _ Hmw HP).
  - exact (Hf a _ _ _ Hrun (Hm _ _ _ Hmw HP)).
Qed.

Lemma keeps_for_of {A} (l : list A) body :
  (forall x, keeps P (body x)) -> keeps P (for_of l body).
Proof.
  intros Hb. induction l as [|x l IH]; cbn [for_of].
  - apply keeps_ret.
  - apply keeps_bind; [apply Hb|intros _; exact IH].
Qed.

Lemma keeps_try_catch m handler :
  keeps P m -> (forall e, keeps P (handler e)) -> keeps P (try_catch m handler).
Proof.
  intros Hm Hh w r w' Hrun HP. unfold try_catch in Hrun.
  destruct (m w) as [[e|a] w1] eqn:Hmw.
  - exact (Hh e _ _ _ Hrun (Hm _ _ _ Hmw HP)).
  - injection Hrun as <- <-. exact (Hm _ _ _ Hmw HP).
Qed.

Variable c : collaborators.
Hypothesis keeps_import_now : forall file, keeps P (import_now c file).
Hypothesis keeps_assign : forall g k v, keeps P (assign c g k v).

Lemma keeps_load_fragment g file : keeps P (load_fragment c g file).
Proof.
  unfold load_fragment. apply keeps_bind; [apply keeps_import_now|].
  intros [s v]. apply keeps_assign.
Qed.

(** The loader keeps whatever its loads and its assignments keep. *)
Lemma keeps_fragments : keeps P (fragments c).
Proof.
  unfold fragments. apply keeps_bind; [apply keeps_lift|]. intros files.
  destruct (split_index files) as [removed others].
  apply keeps_bind; [apply keeps_lift|]. intros pkg.
  apply keeps_bind; [apply keeps_import_now|]. intros [g v].
  apply keeps_bind; [|intros _; apply keeps_ret].
  apply keeps_for_of. intros file. apply keeps_load_fragment.
Qed.

End Keeps.

(** The loader never calls the completion callback, never writes to the
    console and never calls the renderer. *)
Lemma fragments_silent c w r w' :
  fragments c w = (r, w') ->
  done_calls w' = done_calls w /\ console w' = console w /\
  render_log w' = render_log w.
Proof.
  intros Hrun.
  apply (keeps_fragments
           (fun v => done_calls v = done_calls w /\ console v = console w /\
                     render_log v = render_log w) c) with (w := w) (r := r);
    [| |exact Hrun|done].
  - intros [f|] v r1 v1 Hstep HP.
    + rewrite import_now_answer in Hstep. by injection Hstep as <- <-.
    + by injection Hstep as <- <-.
  - intros g k x v r1 v1 Hstep HP. unfold assign in Hstep.
    destruct (module_map v !! g) as [[?|g0]|];
      [| destruct (put k x g0) |]; injection Hstep as <- <-; exact HP.
Qed.


(** When the loader returns, [guide] refers to a loaded module. *)
Lemma fragments_guide_loaded c w pkg guide w1 :
  fragments c w = (inr (pkg, guide), w1) ->
  exists g, module_map w1 !! guide = Some (inr g).
Proof.
  unfold fragments, mbind, M_bind at 1, lift.
  destruct (globbySync c) as [?|files]; [done|].
  destruct (split_index files) as [removed others].
  unfold mbind, M_bind at 1. destruct (read_package c) as [?|pkg']; [done|].
  unfold mbind, M_bind at 1.
  destruct (import_now c (head removed) w) as [[?|[g0 v0]] wa] eqn:Himp; [done|].
  unfold mbind, M_bind at 1.
  destruct (for_of others (load_fragment c g0) wa) as [[?|[]] wb] eqn:Hloop;
    [done|].
  intros [= <- <- <-].
  refine (keeps_for_of (fun v => exists g, module_map v !! g0 = Some (inr g))
            others (load_fragment c g0) _ _ _ _ Hloop _).
  - intros file v r v1 Hstep [g Hg].
    unfold load_fragment, mbind, M_bind in Hstep.
    rewrite import_now_answer in Hstep. cbn zeta in Hstep.
    set (s := (Posix.join ".." file, date_now c (date_calls v))) in *.
    assert (Hkept : exists g2,
               <[s := answer c v s]> (module_map v) !! g0 = Some (inr g2)).
    { destruct (decide (s = g0)) as [<-|Hne].
      - rewrite lookup_insert_eq, (answer_hit c v s _ Hg). by eexists.
      - rewrite lookup_insert_ne by done. by eexists. }
    destruct Hkept as [g2 Hg2].
    destruct (answer c v s) as [e|x] eqn:Ha.
    + injection Hstep as <- <-. cbn. by eexists.
    + unfold assign in Hstep. cbn [module_map] in Hstep.
      rewrite Hg2 in Hstep.
      destruct (put (key_of file) x g2) as [e'|g3];
        injection Hstep as <- <-; cbn [module_map]; [by eexists|].
      rewrite (settle_lookup_self _ _ _ g2) by exact Hg2. by eexists.
  - destruct (head removed) as [f|]; [|done].
    rewrite import_now_answer in Himp. cbn zeta in Himp.
    destruct (answer c w _) as [e|x] eqn:Ha; [done|].
    injection Himp as <- <- <-. cbn. rewrite lookup_insert_eq. by eexists.
Qed.

(** ** The claims on the fragment loader *)







(** When the glob matches no file at all, no path contains the token,
    [splice(-1, 1)] has nothing to remove, [index] is undefined and
    joining it throws a [TypeError]: the promise of the task rejects and
    the completion callback is not called. *)
Example empty_match_throws :
  globbySync no_match = inr [] /\
  Forall (fun f => includes f "index" = false) ([] : list string) /\
  split_index [] = ([], []) /\
  build no_match fresh_process = (inl TypeError_path, fresh_process) /\
  done_calls (build no_match fresh_process).2 = 0.
Proof. repeat split; (reflexivity || constructor). Qed.









(** ** The claims on failures *)

(** C6: in every invocation that reaches the renderer, the renderer is
    given the object [guide] refers to; when it throws, the task catches
    the error, writes it to the console, and calls the completion callback
    exactly once; its promise resolves, so that the enclosing composition is
    given a success. *)
Theorem render_failure_is_logged c w pkg guide w1 :
  fragments c w = (inr (pkg, guide), w1) ->
  exists g,
    module_map w1 !! guide = Some (inr g) /\
    forall e, generateGuide c pkg g = Some e ->
      exists w2,
        build c w = (inr tt, w2) /\
        task_result (build c w) = Ok /\
        done_calls w2 = S (done_calls w) /\
        console w2 = console w ++ [(skipping, e)] /\
        render_log w2 = render_log w ++ [(pkg, g)].
Proof.
  intros Hrun.
  destruct (fragments_guide_loaded c w pkg guide w1 Hrun) as [g Hg].
  exists g. split; [exact Hg|]. intros e Hthrow.
  destruct (fragments_silent c w _ w1 Hrun) as (Hd & Hc & Hr).
  assert (Hb : build c w =
                 (inr tt,
                  {| module_map := module_map w1;
                     require_cache := require_cache w1;
                     import_log := import_log w1;
                     date_calls := date_calls w1;
                     render_log := render_log w1 ++ [(pkg, g)];
                     console := console w1 ++ [(skipping, e)];
                     done_calls := S (done_calls w1) |})).
  { unfold build, mbind, M_bind at 1. rewrite Hrun.
    unfold mbind, M_bind. rewrite (render_spec c pkg guide g w1 Hg), Hthrow.
    reflexivity. }
  eexists. split; [exact Hb|]. unfold task_result. rewrite Hb.
  cbn -[skipping]. rewrite Hd, Hc, Hr. by repeat split.
Qed.

Lemma render_failure_is_logged_sample :
  exists g,
    module_map (fragments unrendered fresh_process).2
      !! ("../src/guide/index.js"%string, 1000%Z) = Some (inr g) /\
    forall e, generateGuide unrendered manifest g = Some e ->
      exists w2,
        build unrendered fresh_process = (inr tt, w2) /\
        task_result (build unrendered fresh_process) = Ok /\
        done_calls w2 = 1 /\
        console w2 = [(skipping, e)] /\
        render_log w2 = [(manifest, g)].
Proof.
  apply (render_failure_is_logged unrendered fresh_process manifest
           ("../src/guide/index.js"%string, 1000%Z)
           (fragments unrendered fresh_process).2).
  vm_compute. reflexivity.
Defined.

(** In the sample project with a renderer that throws, the error is on the
    console and the callback was called. *)
Example unrendered_run :
  let r := build unrendered fresh_process in
  r.1 = inr tt /\
  console r.2 = [(skipping, "Error: cannot render"%string)] /\
  done_calls r.2 = 1 /\
  length (render_log r.2) = 1.
Proof. vm_compute. repeat split; reflexivity. Qed.

(** Every failure before the renderer is a failure of the loader. *)
Lemma load_failure_fragments c w e w' :
  load_failure c w e w' -> fragments c w = (inl e, w').
Proof.
  intros [Hglob|files Hglob Hpkg|files removed others pkg w1 Hglob Hsplit Hpkg Himp
         |files removed before file after pkg guide v wa wb w1
            Hglob Hsplit Hpkg Himp Hloop Hfile];
    unfold fragments, mbind, M_bind at 1, lift; rewrite Hglob; [done|..].
  - destruct (split_index files). unfold mbind, M_bind at 1. by rewrite Hpkg.
  - rewrite Hsplit. unfold mbind, M_bind at 1. rewrite Hpkg.
    unfold mbind, M_bind at 1. by rewrite Himp.
  - rewrite Hsplit. unfold mbind, M_bind at 1. rewrite Hpkg.
    unfold mbind, M_bind at 1. rewrite Himp.
    unfold mbind, M_bind at 1. rewrite for_of_app, Hloop, for_of_cons.
    unfold load_fragment at 1, mbind, M_bind. by rewrite Hfile.
Qed.

(** C9: when resolving the file list, reading the manifest or importing a
    fragment module throws, the exception leaves the task: its promise
    rejects with that error, so that the enclosing composition is given a
    failure; the completion callback is not called and the renderer is not
    reached. *)
Theorem load_failure_rejects c w e w' :
  load_failure c w e w' ->
  build c w = (inl e, w') /\
  task_result (build c w) = Err e /\
  done_calls w' = done_calls w /\
  render_log w' = render_log w /\
  console w' = console w.
Proof.
  intros Hfail. pose proof (load_failure_fragments c w e w' Hfail) as Hrun.
  destruct (fragments_silent c w _ w' Hrun) as (Hd & Hc & Hr).
  assert (Hb : build c w = (inl e, w')).
  { unfold build, mbind, M_bind. by rewrite Hrun. }
  unfold task_result. rewrite Hb. by repeat split.
Qed.

(** In the sample project with a [card.js] that throws, the index and
    [button.js] are loaded and the import of [card.js] rejects the task. *)
Lemma load_failure_rejects_card :
  let w' := (build broken_card fresh_process).2 in
  build broken_card fresh_process = (inl "SyntaxError: Unexpected token"%string, w') /\
  task_result (build broken_card fresh_process)
    = Err "SyntaxError: Unexpected token" /\
  done_calls w' = 0 /\ render_log w' = [] /\ console w' = [].
Proof.
  apply (load_failure_rejects broken_card fresh_process).
  apply (fragment_import_throws broken_card fresh_process _ sample_files
           ["src/guide/index.js"%string] ["src/guide/button.js"%string]
           "src/guide/card.js"%string [] manifest
           ("../src/guide/index.js"%string, 1000%Z)
           (object [("title"%string, VString "Design Guide")])
           (import_now broken_card (Some "src/guide/index.js"%string)
              fresh_process).2
           (for_of ["src/guide/button.js"%string]
              (load_fragment broken_card ("../src/guide/index.js"%string, 1000%Z))
              (import_now broken_card (Some "src/guide/index.js"%string)
                 fresh_process).2).2).
  - reflexivity.
  - reflexivity.
  - reflexivity.
  - vm_compute. reflexivity.
  - vm_compute. reflexivity.
  - vm_compute. reflexivity.
Defined.

(** ** Successive invocations *)



(** The marker is the reading of the clock, and a clock may read a value
    it has read before.  Here the clock is set back between two
    invocations, [button.js] is edited between them, and the later
    invocation is answered from the module map: it requests the specifiers
    of the earlier invocation again and hands the renderer the export of
    [button.js] from before the edit. *)
Example repeated_marker_serves_stale_module :
  let w1 := (build repeating fresh_process).2 in
  let w2 := (build repeating_edited w1).2 in
  evaluate repeating_edited "../src/guide/button.js" = inr (VString "button v2") /\
  import_log w2 = import_log w1 ++ import_log w1 /\
  rendered_property w2 "button" = Some (VString "button").
Proof. vm_compute. repeat split; reflexivity. Qed.





End GuideFacts.

(* ================================================================== *)
(** * The guide Route *)
(* ================================================================== *)

Module WiringFacts.
Import Gulp Watch Wiring.

(** In a run of the guide Route, [reload] is started exactly when the
    promise of [guide:build] resolves. *)
Lemma guide_route_notify env c w d t0 :
  notify_count (run_route (with_guide env c w d) guide_route t0) =
    match (Guide.build c w).1 with
    | inr _ => 1
    | inl _ => 0
    end.
Proof.
  unfold run_route, guide_route, series.
  rewrite (WatchFacts.notify_count_then_reload _ (Leaf guide_build)).
  - cbn. unfold Guide.task_result. by destruct (Guide.build c w).1.
  - cbn. rewrite elem_of_cons, elem_of_nil. intuition discriminate.
Qed.

(** A renderer that throws does not stop the reload; a fragment that
    throws does. *)
Example guide_route_samples :
  notify_count
    (run_route (with_guide quiet Guide.unrendered Guide.fresh_process 3)
       guide_route 0) = 1 /\
  notify_count
    (run_route (with_guide quiet Guide.broken_card Guide.fresh_process 3)
       guide_route 0) = 0.
Proof. rewrite !guide_route_notify. split; reflexivity. Qed.

End WiringFacts.

(* ================================================================== *)
(** * More on the scheduler and the Routes *)
(* ================================================================== *)

Module ScheduleFacts.
Import Gulp Watch Dispatch GulpFacts WatchFacts.

Section Timing.
Context {T : Type}.
Variable env : T -> behaviour.

Lemma run_parallel_barrier ns p t0 :
  run env (Parallel ns) p t0 = barrier t0 (fork (run env) p t0 0 ns).
Proof. reflexivity. Qed.

Lemma first_failure_none (rs : list (report T)) :
  first_failure rs = None -> Forall (fun r => signal r = Ok) rs.
Proof.
  induction rs as [|r rs IH]; intros Hnone; [constructor|].
  cbn in Hnone. destruct (signal r) eqn:Hs.
  - constructor; [exact Hs|apply IH, Hnone].
  - destruct (first_failure rs) as [[? ?]|]; [destruct (_ <=? _)|];
      discriminate.
Qed.

Lemma first_failure_some (rs : list (report T)) t e :
  first_failure rs = Some (t, e) ->
  exists r, r ∈ rs /\ signal r = Err e /\ signal_at r = t.
Proof.
  revert t e. induction rs as [|r rs IH]; intros t e Hsome; [done|].
  cbn in Hsome. destruct (signal r) as [|e0] eqn:Hs.
  - destruct (IH t e Hsome) as (r' & Hin & Hr').
    exists r'. split; [by apply list_elem_of_further|done].
  - destruct (first_failure rs) as [[t' e']|] eqn:Hff.
    + destruct (signal_at r <=? t') eqn:Hle.
      * injection Hsome as <- <-. exists r. split; [apply list_elem_of_here|done].
      * injection Hsome as <- <-. destruct (IH t' e' eq_refl) as (r' & Hin & Hr').
        exists r'. split; [by apply list_elem_of_further|done].
    + injection Hsome as <- <-. exists r. split; [apply list_elem_of_here|done].
Qed.

Lemma join_time_bounds t (rs : list (report T)) :
  t <= join_time t rs /\ Forall (fun r => signal_at r <= join_time t rs) rs.
Proof.
  unfold join_time.
  induction rs as [|r rs [IH1 IH2]]; cbn [foldr]; [split; [lia|constructor]|].
  split; [lia|]. constructor; [lia|].
  eapply Forall_impl; [exact IH2|]. cbn beta. intros; lia.
Qed.

(** A composition signals at or after its start; when it signals success,
    every action of its run has happened by then. *)
Lemma run_settled n : forall p t0,
  t0 <= signal_at (run env n p t0) /\
  (signal (run env n p t0) = Ok ->
   forall te, te ∈ events (run env n p t0) -> te.1 <= signal_at (run env n p t0)).
Proof.
  induction n as [t|ns IH|ns IH] using node_induction; intros p t0.
  - cbn. split; [lia|]. intros _ te Hin.
    apply elem_of_cons in Hin as [->|Hin]; [cbn; lia|].
    apply elem_of_cons in Hin as [->|Hin]; [cbn; lia|inversion Hin].
  - rewrite run_series. generalize 0. revert t0.
    induction IH as [|c ns Hc _ IHns]; intros t0 i.
    + cbn. split; [lia|]. intros _ te Hin. inversion Hin.
    + rewrite chain_cons. cbn zeta.
      destruct (Hc (p ++ [i]) t0) as [Hge Hev].
      destruct (signal (run env c (p ++ [i]) t0)) eqn:Hs.
      * destruct (IHns (signal_at (run env c (p ++ [i]) t0)) (S i))
          as [Hge' Hev'].
        cbn. split; [lia|]. intros Hok te Hin.
        apply elem_of_app in Hin as [Hin|Hin].
        -- specialize (Hev eq_refl te Hin). lia.
        -- exact (Hev' Hok te Hin).
      * split; [exact Hge|]. rewrite Hs. discriminate.
  - rewrite run_parallel_barrier. unfold barrier.
    assert (Hall : Forall (fun r : report T =>
                     t0 <= signal_at r /\
                     (signal r = Ok -> forall te, te ∈ events r ->
                                                  te.1 <= signal_at r))
                   (fork (run env) p t0 0 ns)).
    { generalize 0. induction IH as [|c ns Hc _ IHns]; intros i; cbn;
        constructor; [apply Hc|apply IHns]. }
    destruct (first_failure _) as [[t' e]|] eqn:Hff.
    + cbn. split; [|discriminate].
      apply first_failure_some in Hff as (r & Hin & _ & <-).
      rewrite Forall_forall in Hall. by apply Hall.
    + cbn. pose proof (first_failure_none _ Hff) as Hoks.
      destruct (join_time_bounds t0 (fork (run env) p t0 0 ns)) as [Hge Hle].
      split; [exact Hge|]. intros _ te Hin.
      apply list_elem_of_In, in_concat in Hin as (evs & Hevs & Hte).
      apply in_map_iff in Hevs as (r & <- & Hr).
      apply list_elem_of_In in Hr. apply list_elem_of_In in Hte.
      rewrite Forall_forall in Hall, Hoks, Hle.
      destruct (Hall r Hr) as [_ Hev].
      specialize (Hev (Hoks r Hr) te Hte). specialize (Hle r Hr). lia.
Qed.

End Timing.

(** X1: in a run of any registered Route, the reload notifier is never
    started before a build step has ended: when [reload] is started, every
    action of every other task unit of the run has already happened. *)
Theorem reload_after_build_steps r env t0 s p te :
  r ∈ routes ->
  (s, Started p reload) ∈ events (run_route env r t0) ->
  te ∈ events (run_route env r t0) ->
  task_of te.2 <> reload ->
  te.1 <= s.
Proof.
  intros Hin Hs Hte Hnot.
  destruct (decide (globs r = config_src_styles)) as [Hst|Hne].
  { exfalso. rewrite routes_eq in Hin.
    repeat (apply elem_of_cons in Hin as [->|Hin]; [try discriminate Hst|]).
    - cbn in Hs. apply elem_of_cons in Hs as [Hs|Hs]; [discriminate|].
      apply elem_of_cons in Hs as [Hs|Hs]; [discriminate|inversion Hs].
    - inversion Hin. }
  destruct (route_shape r Hin Hne) as (c & Hc & Hfree).
  unfold run_route in *. rewrite Hc in *.
  rewrite run_series, chain_cons in Hs, Hte. cbn zeta in Hs, Hte.
  destruct (run_settled env c ([] ++ [0]) t0) as [_ Hbefore].
  assert (Hnoreload : forall q u,
            (u, Started q reload) ∉ events (run env c ([] ++ [0]) t0)).
  { intros q u Hq. apply Hfree. by apply (run_tasks env c _ _ _ Hq). }
  destruct (signal (run env c ([] ++ [0]) t0)) eqn:Hok.
  - set (tail := [(signal_at (run env c ([] ++ [0]) t0), Started [1] reload);
                  (signal_at (run env c ([] ++ [0]) t0) + duration (env reload),
                   Finished [1] reload (outcome (env reload)))]).
    assert (Hs' : (s, Started p reload)
                    ∈ events (run env c ([] ++ [0]) t0) ++ tail)
      by (revert Hs; subst tail; cbn; destruct (outcome (env reload));
          intros Hs; exact Hs).
    assert (Hte' : te ∈ events (run env c ([] ++ [0]) t0) ++ tail)
      by (revert Hte; subst tail; cbn; destruct (outcome (env reload));
          intros Hte; exact Hte).
    clear Hs Hte. rename Hs' into Hs. rename Hte' into Hte. subst tail.
    apply elem_of_app in Hs as [Hs|Hs]; [by apply Hnoreload in Hs|].
    apply elem_of_cons in Hs as [Hs|Hs];
      [|apply elem_of_cons in Hs as [Hs|Hs]; [discriminate|inversion Hs]].
    injection Hs as -> _.
    apply elem_of_app in Hte as [Hte|Hte]; [by apply Hbefore|].
    exfalso. apply Hnot.
    apply elem_of_cons in Hte as [->|Hte]; [done|].
    apply elem_of_cons in Hte as [->|Hte]; [done|inversion Hte].
  - by apply Hnoreload in Hs.
Qed.

Lemma reload_after_build_steps_views :
  (1, Finished [0; 1] guide_build Ok).1 <= 1.
Proof.
  apply (reload_after_build_steps views_route quiet 0 1 [1]
           (1, Finished [0; 1] guide_build Ok)).
  - exact views_route_registered.
  - cbn. do 4 apply list_elem_of_further. apply list_elem_of_here.
  - cbn. do 3 apply list_elem_of_further. apply list_elem_of_here.
  - discriminate.
Defined.

(** X2: in the Route of the views, [views:build] and [guide:build] are both
    started at once and both run to their end, whatever the other does;
    [reload] is started if and only if both succeed, at the later of the
    two completions. *)
Theorem views_route_run env t0 :
  let dv := duration (env views_build) in
  let dg := duration (env guide_build) in
  events (run_route env views_route t0) =
    [(t0, Started [0; 0] views_build);
     (t0 + dv, Finished [0; 0] views_build (outcome (env views_build)));
     (t0, Started [0; 1] guide_build);
     (t0 + dg, Finished [0; 1] guide_build (outcome (env guide_build)))]
    ++ (if is_ok (outcome (env views_build)) && is_ok (outcome (env guide_build))
        then [(t0 + Nat.max dv dg, Started [1] reload);
              (t0 + Nat.max dv dg + duration (env reload),
               Finished [1] reload (outcome (env reload)))]
        else []).
Proof.
  cbn zeta. unfold run_route. cbn.
  destruct (outcome (env views_build)), (outcome (env guide_build));
    unfold barrier; cbn.
  - replace (Nat.max (t0 + duration (env views_build))
               (Nat.max (t0 + duration (env guide_build)) t0))
      with (t0 + Nat.max (duration (env views_build))
                         (duration (env guide_build))) by lia.
    by destruct (outcome (env reload)).
  - reflexivity.
  - reflexivity.
  - by destruct (t0 + duration (env views_build)
                 <=? t0 + duration (env guide_build)).
Qed.

(** X3: reloads are not coalesced across Routes: when every task unit
    succeeds, a change triggers one call of the reload notifier for every
    matching Route other than the one of the styles. *)
Theorem one_reload_per_triggered_route matches env t0 :
  (forall t, outcome (env t) = Ok) ->
  total_notifies env t0 (on_change routes matches) =
    length (filter (fun r => globs r <> config_src_styles)
              (on_change routes matches)).
Proof.
  intros Hok.
  assert (Hone : Forall (fun r => notify_count (run_route env r t0) =
                                  if decide (globs r <> config_src_styles)
                                  then 1 else 0) routes).
  { rewrite routes_eq.
    repeat (constructor;
      [unfold notify_count, run_route; cbn; rewrite ?Hok; cbn; reflexivity|]).
    constructor. }
  unfold on_change, total_notifies.
  induction Hone as [|r rs Hr _ IH]; [reflexivity|].
  rewrite filter_cons. destruct (decide (matches (globs r) = true)); [|exact IH].
  cbn [foldr]. rewrite filter_cons, Hr, IH.
  by destruct (decide (globs r <> config_src_styles)).
Qed.

Lemma one_reload_per_triggered_route_views_and_guide :
  total_notifies quiet 0
    (on_change routes
       (fun g => bool_decide (g = config_src_views_0 \/ g = config_guide))) = 2.
Proof.
  rewrite (one_reload_per_triggered_route _ quiet 0); [reflexivity|].
  intros t. reflexivity.
Defined.

End ScheduleFacts.

(* ================================================================== *)
(** * More on the guide build *)
(* ================================================================== *)

Module GuideMoreFacts.
Import Guide GuideCases GuideFacts.

(** The guarded call of the renderer never throws. *)
Lemma render_returns c pkg guide w :
  exists w', render c pkg guide w = (inr tt, w') /\
    done_calls w' = done_calls w /\
    module_map w' = module_map w /\
    import_log w' = import_log w /\
    date_calls w' = date_calls w /\
    length (render_log w') = S (length (render_log w)).
Proof.
  unfold render, try_catch, deref, call_generateGuide, console_error,
    mbind, M_bind.
  destruct (module_map w !! guide) as [[?|?]|];
    destruct (generateGuide c pkg _); eexists; (split; [reflexivity|]);
    cbn -[skipping]; rewrite length_app; cbn; repeat split; lia.
Qed.

(** X4: every invocation signals its completion exactly once: either its
    promise resolves, the renderer was called once and the callback was
    called once; or its promise rejects, and then neither the callback nor
    the renderer was called and nothing was written to the console. *)
Theorem build_signals_once c w :
  match build c w with
  | (inr _, w') =>
      done_calls w' = S (done_calls w) /\
      length (render_log w') = S (length (render_log w))
  | (inl _, w') =>
      done_calls w' = done_calls w /\
      render_log w' = render_log w /\
      console w' = console w
  end.
Proof.
  unfold build, mbind, M_bind at 1.
  destruct (fragments c w) as [[e|[pkg guide]] w1] eqn:Hrun.
  - destruct (fragments_silent c w _ w1 Hrun) as (Hd & Hc & Hr). done.
  - destruct (fragments_silent c w _ w1 Hrun) as (Hd & Hc & Hr).
    unfold mbind, M_bind.
    destruct (render_returns c pkg guide w1) as (w2 & -> & Hd2 & _ & _ & _ & Hr2).
    cbn. rewrite Hd2, Hd, Hr2, Hr. done.
Qed.








(** X6: when the default export of the index module is not an object and
    the list holds another file that loads and is not named [__proto__],
    the first assignment throws a [TypeError]: the promise rejects, the
    callback is not called and the renderer is not reached.  (An
    assignment to [__proto__] on a string or a number does not throw: the
    setter of [Object.prototype] returns without an effect.) *)
Theorem index_not_object_rejects c w files ix f others pkg v x :
  globbySync c = inr files ->
  split_index files = ([ix], f :: others) ->
  read_package c = inr pkg ->
  answer c w (index_specifier c w ix) = inr v ->
  is_object v = false ->
  key_of f <> proto_key ->
  answer c w (Posix.join ".." f, date_now c (S (date_calls w))) = inr x ->
  exists w',
    build c w = (inl TypeError_property, w') /\
    done_calls w' = done_calls w /\
    render_log w' = render_log w.
Proof.
  intros Hglob Hsplit Hpkg Hix Hobj Hkey Hf.
  assert (Hrun : exists w', fragments c w = (inl TypeError_property, w')).
  { unfold fragments, mbind, M_bind at 1, lift. rewrite Hglob, Hsplit.
    unfold mbind, M_bind at 1. rewrite Hpkg. cbn [head].
    unfold mbind, M_bind at 1. rewrite (import_now_answer c ix w). cbn zeta.
    unfold index_specifier in Hix. rewrite Hix.
    unfold mbind, M_bind at 1. rewrite for_of_cons.
    unfold load_fragment at 1, mbind, M_bind.
    rewrite import_now_answer. cbn zeta. cbn [date_calls].
    set (g := (Posix.join ".." ix, date_now c (date_calls w))) in *.
    set (s := (Posix.join ".." f, date_now c (S (date_calls w)))) in *.
    match goal with |- context [answer c ?w1 s] =>
      assert (Ha : answer c w1 s = inr x)
        by (rewrite (answer_kept c w w1 g);
            [exact Hf|cbn; by rewrite Hix|reflexivity])
    end.
    rewrite Ha. unfold assign. cbn [module_map].
    assert (Hg : <[s := @inr error value x]> (<[g := inr v]> (module_map w)) !! g
                 = Some (inr v)).
    { destruct (decide (s = g)) as [Heq|Hne].
      - rewrite Heq, lookup_insert_eq.
        unfold answer in Ha. cbn [module_map] in Ha.
        rewrite Heq, lookup_insert_eq in Ha. by rewrite Ha.
      - rewrite lookup_insert_ne by done. apply lookup_insert_eq. }
    rewrite Hg.
    assert (Hput : put (key_of f) x v = inl TypeError_property).
    { destruct v; try discriminate; cbn [put]; [reflexivity| |];
        by destruct (String.eqb_spec (key_of f) proto_key). }
    rewrite Hput. eexists; reflexivity. }
  destruct Hrun as [w' Hrun]. exists w'.
  destruct (fragments_silent c w _ w' Hrun) as (Hd & _ & Hr).
  split; [|done]. unfold build, mbind, M_bind. by rewrite Hrun.
Qed.

(** The file after the index has to be named otherwise: with an index
    module that exports a string and a single other file [__proto__.js],
    no assignment throws and the renderer is handed the string. *)
Example proto_assignment_on_string_is_silent :
  split_index proto_files =
    (["src/guide/index.js"], ["src/guide/__proto__.js"])%string /\
  (build bare_proto fresh_process).1 = inr tt /\
  render_log (build bare_proto fresh_process).2 =
    [(manifest, VString "../src/guide/index.js")].
Proof. vm_compute. repeat split; reflexivity. Qed.

Lemma index_not_object_rejects_bare :
  exists w',
    build bare_index fresh_process = (inl TypeError_property, w') /\
    done_calls w' = 0 /\
    render_log w' = [].
Proof.
  apply (index_not_object_rejects bare_index fresh_process sample_files
           "src/guide/index.js"%string "src/guide/button.js"%string
           ["src/guide/card.js"%string] manifest
           (VString "../src/guide/index.js") (VString "../src/guide/button.js")).
  - reflexivity.
  - reflexivity.
  - reflexivity.
  - reflexivity.
  - reflexivity.
  - vm_compute. discriminate.
  - reflexivity.
Defined.

(** ** The selection keeps every file *)

Lemma findIndex_bounds {A} (p : A -> bool) l :
  (-1 <= findIndex p l < Z.of_nat (length l))%Z \/
  (l = [] /\ findIndex p l = (-1)%Z).
Proof.
  induction l as [|x l IH]; [by right|left]. cbn [findIndex length].
  destruct (p x); [lia|].
  destruct IH as [IH|[-> ->]]; [|cbn; lia].
  destruct (Z.ltb_spec (findIndex p l) 0); lia.
Qed.

Lemma splice_partition {A} (l : list A) start count :
  (splice l start count).1 ++ (splice l start count).2 ≡ₚ l.
Proof.
  unfold splice. cbn [fst snd].
  set (s := Z.to_nat _).
  rewrite (Permutation_app_comm (take count (drop s l))), <- app_assoc.
  rewrite (Permutation_app_comm (drop (s + count) l)).
  rewrite <- drop_drop, take_drop, take_drop. reflexivity.
Qed.

(** X7: the selection of the index file loses no matched file and keeps no
    file twice: the file taken out together with the files left for the
    loop are the matched files, in some order; exactly one file is taken
    out of a list that is not empty, none out of an empty list. *)
Theorem split_index_partition files :
  (split_index files).1 ++ (split_index files).2 ≡ₚ files /\
  length (split_index files).1 = (if files is [] then 0 else 1) /\
  length (split_index files).2 = length files - 1.
Proof.
  split; [apply splice_partition|].
  assert (Hone : length (split_index files).1 = if files is [] then 0 else 1).
  { unfold split_index, splice. cbn [fst].
    destruct (findIndex_bounds (fun file => includes file "index") files)
      as [Hb|[-> ->]]; [|reflexivity].
    destruct files as [|f files]; [by rewrite drop_nil, take_nil|].
    rewrite length_take, length_drop.
    destruct (Z.ltb_spec (findIndex (fun file => includes file "index")
                            (f :: files)) 0); cbn [length] in *; lia. }
  split; [exact Hone|].
  pose proof (splice_partition files
                (findIndex (fun file => includes file "index") files) 1) as Hp.
  apply Permutation_length in Hp. rewrite length_app in Hp.
  fold (split_index files) in Hp. rewrite Hone in Hp.
  destruct files; cbn [length] in *; lia.
Qed.

End GuideMoreFacts.

(* ================================================================== *)
(** * The development dependencies of a project *)
(* ================================================================== *)

Module DevDependenciesFacts.
Import Js DevDependencies.

Lemma includes_spec l x : includes l x = bool_decide (x ∈ l).
Proof.
  unfold includes. induction l as [|y l IH]; cbn; [done|].
  rewrite IH. destruct (String.eqb_spec x y) as [Heq|Hne].
  - subst y. cbn. symmetry. apply bool_decide_eq_true. apply list_elem_of_here.
  - cbn. apply bool_decide_ext. rewrite elem_of_cons. intuition congruence.
Qed.

Lemma elem_of_cons_eqb (a t : string) tasks :
  bool_decide (a ∈ t :: tasks) = String.eqb t a || bool_decide (a ∈ tasks).
Proof.
  destruct (String.eqb_spec t a) as [Heq|Hne]; cbn.
  - subst t. apply bool_decide_eq_true, list_elem_of_here.
  - apply bool_decide_ext. rewrite elem_of_cons. intuition congruence.
Qed.

Lemma some_either tasks a b :
  some (fun task => includes [a; b] task) tasks =
    bool_decide (a ∈ tasks) || bool_decide (b ∈ tasks).
Proof.
  unfold some. induction tasks as [|t tasks IH]; [reflexivity|].
  cbn [existsb]. rewrite IH, !elem_of_cons_eqb. cbn.
  destruct (String.eqb t a), (String.eqb t b),
    (bool_decide (a ∈ tasks)), (bool_decide (b ∈ tasks)); reflexivity.
Qed.

(** The object depends on the tasks through the presence of the five known
    names only. *)
Lemma devDependencies_by_flags tasks :
  devDependencies tasks =
    by_flags (bool_decide ("symbols"%string ∈ tasks))
             (bool_decide ("images"%string ∈ tasks))
             (bool_decide ("styles"%string ∈ tasks))
             (bool_decide ("scripts"%string ∈ tasks))
             (bool_decide ("views"%string ∈ tasks)).
Proof.
  unfold devDependencies at 1.
  rewrite !some_either, !includes_spec.
  destruct (bool_decide ("symbols"%string ∈ tasks)),
           (bool_decide ("images"%string ∈ tasks)),
           (bool_decide ("styles"%string ∈ tasks)),
           (bool_decide ("scripts"%string ∈ tasks)),
           (bool_decide ("views"%string ∈ tasks)); reflexivity.
Qed.

(** X8. Whatever the tasks are, no name is requested twice, every requested
    name has the empty string for its version (the version is left to
    [addDevDependencies]), and the ten names every project needs come
    first, in the order of the source. *)
Theorem requested_names_distinct_and_unversioned tasks :
  NoDup (keys (devDependencies tasks)) /\
  Forall (fun kv => kv.2 = String.EmptyString) (devDependencies tasks) /\
  take 10 (keys (devDependencies tasks)) = always.
Proof.
  rewrite devDependencies_by_flags.
  destruct (bool_decide ("symbols"%string ∈ tasks)),
           (bool_decide ("images"%string ∈ tasks)),
           (bool_decide ("styles"%string ∈ tasks)),
           (bool_decide ("scripts"%string ∈ tasks)),
           (bool_decide ("views"%string ∈ tasks)).
  all: split; [|split; [|reflexivity]];
       apply (bool_decide_unpack _); vm_compute; exact I.
Qed.

(** X9. Two task lists that hold the same known task names (symbols,
    images, styles, scripts, views) give the same object: the order of the
    tasks, repetitions and any other name make no difference. *)
Theorem only_known_tasks_matter tasks tasks' :
  (forall t, t ∈ known -> t ∈ tasks <-> t ∈ tasks') ->
  devDependencies tasks = devDependencies tasks'.
Proof.
  intros H. rewrite (devDependencies_by_flags tasks),
    (devDependencies_by_flags tasks').
  assert (Hk : forall t, t ∈ known ->
            bool_decide (t ∈ tasks) = bool_decide (t ∈ tasks')).
  { intros t Ht. apply bool_decide_ext, H, Ht. }
  rewrite !Hk; [reflexivity|..];
    apply (bool_decide_unpack _); vm_compute; exact I.
Qed.

Lemma only_known_tasks_matter_views :
  devDependencies ["views"; "lint"; "views"]%string =
    devDependencies ["views"]%string.
Proof.
  apply only_known_tasks_matter. intros t Ht.
  rewrite !elem_of_cons. split.
  - intros [->|[->|[->|Hn]]]; [by left| |by left|inversion Hn].
    exfalso. revert Ht. apply (bool_decide_unpack _). vm_compute. exact I.
  - intros [->|Hn]; [by left|inversion Hn].
Defined.

Lemma elem_of_app_bool (x : string) (l1 l2 : list string) :
  bool_decide (x ∈ l1 ++ l2) = bool_decide (x ∈ l1) || bool_decide (x ∈ l2).
Proof.
  destruct (bool_decide_reflect (x ∈ l1)) as [H1|H1],
    (bool_decide_reflect (x ∈ l2)) as [H2|H2]; cbn.
  1-3: apply bool_decide_eq_true, elem_of_app; tauto.
  apply bool_decide_eq_false. rewrite elem_of_app. tauto.
Qed.

(** X10. The names requested for two task lists taken together are the
    names requested for the one together with the names requested for the
    other; so adding a task never removes a name. *)
Theorem requested_names_of_joined_tasks tasks tasks' name :
  name ∈ keys (devDependencies (tasks ++ tasks')) <->
  name ∈ keys (devDependencies tasks) \/
  name ∈ keys (devDependencies tasks').
Proof.
  rewrite <- elem_of_app.
  rewrite (devDependencies_by_flags (tasks ++ tasks')),
    (devDependencies_by_flags tasks), (devDependencies_by_flags tasks').
  rewrite !elem_of_app_bool.
  generalize (bool_decide ("symbols"%string ∈ tasks)),
             (bool_decide ("images"%string ∈ tasks)),
             (bool_decide ("styles"%string ∈ tasks)),
             (bool_decide ("scripts"%string ∈ tasks)),
             (bool_decide ("views"%string ∈ tasks)),
             (bool_decide ("symbols"%string ∈ tasks')),
             (bool_decide ("images"%string ∈ tasks')),
             (bool_decide ("styles"%string ∈ tasks')),
             (bool_decide ("scripts"%string ∈ tasks')),
             (bool_decide ("views"%string ∈ tasks')).
  intros a b c d e a' b' c' d' e'.
  assert (H : forall l k : list string, l ⊆ k -> k ⊆ l -> forall x, x ∈ l <-> x ∈ k).
  { intros l k H1 H2 x. split; [apply H1|apply H2]. }
  apply H; clear H name;
    destruct a, b, c, d, e, a', b', c', d', e';
    apply (bool_decide_unpack _); vm_compute; exact I.
Qed.

End DevDependenciesFacts.

(* ================================================================== *)
(** * Strings and objects *)
(* ================================================================== *)

Module JsFacts.
Import Js.

Lemma append_cons c (a b : string) :
  (String.String c a ++ b)%string = String.String c (a ++ b)%string.
Proof. reflexivity. Qed.

Lemma append_nil (b : string) : ("" ++ b)%string = b.
Proof. reflexivity. Qed.

Lemma append_empty (s : string) : (s ++ "")%string = s.
Proof.
  induction s as [|c s IH]; [reflexivity|]. by rewrite append_cons, IH.
Qed.

Lemma append_assoc (a b c : string) :
  ((a ++ b) ++ c)%string = (a ++ (b ++ c))%string.
Proof.
  induction a as [|x a IH]; [reflexivity|]. by rewrite !append_cons, IH.
Qed.

Lemma length_append (a b : string) :
  String.length (a ++ b)%string = String.length a + String.length b.
Proof.
  induction a as [|x a IH]; [reflexivity|].
  rewrite append_cons. cbn. by rewrite IH.
Qed.

Lemma trimStart_clean s : starts_clean (trimStart s) = true.
Proof.
  induction s as [|c s IH]; cbn; [reflexivity|].
  destruct (is_space c) eqn:Hc; [exact IH|]. cbn. by rewrite Hc.
Qed.

Lemma trimStart_id s : starts_clean s = true -> trimStart s = s.
Proof.
  destruct s as [|c s]; cbn; [reflexivity|].
  by intros ->%negb_true_iff.
Qed.

Lemma trimEnd_clean s : starts_clean s = true -> starts_clean (trimEnd s) = true.
Proof.
  destruct s as [|c s]; cbn; [reflexivity|].
  intros Hc. destruct (trimEnd s).
  - apply negb_true_iff in Hc. rewrite Hc. cbn. by rewrite Hc.
  - exact Hc.
Qed.

Lemma trimEnd_idem s : trimEnd (trimEnd s) = trimEnd s.
Proof.
  induction s as [|c s IH]; cbn; [reflexivity|].
  destruct (trimEnd s) as [|d r] eqn:Hr.
  - destruct (is_space c) eqn:Hc; cbn; [reflexivity|]. by rewrite Hc.
  - cbn [trimEnd] in IH |- *. fold trimEnd in IH |- *.
    change (trimEnd (String.String d r)) with
      (match trimEnd r with
       | String.EmptyString =>
           if is_space d then String.EmptyString
           else String.String d String.EmptyString
       | x => String.String d x
       end) in IH.
    change (trimEnd (String.String c (String.String d r))) with
      (match trimEnd (String.String d r) with
       | String.EmptyString =>
           if is_space c then String.EmptyString
           else String.String c String.EmptyString
       | x => String.String c x
       end).
    rewrite IH. reflexivity.
Qed.

Lemma trim_idem s : trim (trim s) = trim s.
Proof.
  unfold trim.
  rewrite (trimStart_id (trimEnd (trimStart s))).
  - apply trimEnd_idem.
  - apply trimEnd_clean, trimStart_clean.
Qed.

Lemma trim_clean s : starts_clean (trim s) = true.
Proof. apply trimEnd_clean, trimStart_clean. Qed.

Lemma trimEnd_append a c b :
  trimEnd (String.String c b) = String.String c b ->
  trimEnd (a ++ String.String c b)%string = (a ++ String.String c b)%string.
Proof.
  intros Hb. induction a as [|x a IH]; [exact Hb|].
  change (trimEnd (String.String x a ++ String.String c b)%string) with
    (match trimEnd (a ++ String.String c b)%string with
     | String.EmptyString =>
         if is_space x then String.EmptyString
         else String.String x String.EmptyString
     | r => String.String x r
     end).
  rewrite IH. destruct a; reflexivity.
Qed.

Lemma has_char_append c a b :
  has_char c (a ++ b)%string = has_char c a || has_char c b.
Proof.
  induction a as [|x a IH]; [reflexivity|].
  rewrite append_cons. cbn. by rewrite IH, orb_assoc.
Qed.

Lemma has_char_trimStart c s :
  is_space c = false -> has_char c (trimStart s) = has_char c s.
Proof.
  intros Hc. induction s as [|x s IH]; cbn; [reflexivity|].
  destruct (is_space x) eqn:Hx; [|reflexivity].
  rewrite IH. destruct (Ascii.eqb_spec x c) as [->|]; [congruence|reflexivity].
Qed.

Lemma has_char_trimEnd c s :
  is_space c = false -> has_char c (trimEnd s) = has_char c s.
Proof.
  intros Hc. induction s as [|x s IH]; cbn; [reflexivity|].
  destruct (trimEnd s) as [|d r] eqn:Hr.
  - cbn in IH. rewrite <- IH.
    destruct (is_space x) eqn:Hx; cbn.
    + destruct (Ascii.eqb_spec x c) as [->|]; [congruence|reflexivity].
    + reflexivity.
  - change (has_char c (String.String x (String.String d r))) with
      (Ascii.eqb x c || has_char c (String.String d r)).
    by rewrite IH.
Qed.

Lemma has_char_trim c s :
  is_space c = false -> has_char c (trim s) = has_char c s.
Proof.
  intros Hc. unfold trim.
  by rewrite has_char_trimEnd, has_char_trimStart.
Qed.

Lemma get_set_same k v o : get k (set k v o) = Some v.
Proof.
  induction o as [|[k' v'] o IH]; cbn.
  - by rewrite String.eqb_refl.
  - destruct (String.eqb k' k) eqn:Hk; cbn.
    + by rewrite String.eqb_refl.
    + by rewrite Hk.
Qed.

Lemma get_set_other k k' v o : k <> k' -> get k' (set k v o) = get k' o.
Proof.
  intros Hne. induction o as [|[k0 v0] o IH]; cbn.
  - destruct (String.eqb_spec k k'); [done|reflexivity].
  - destruct (String.eqb_spec k0 k) as [->|H0]; cbn.
    + destruct (String.eqb_spec k k'); [done|reflexivity].
    + by rewrite IH.
Qed.

Lemma keys_set_present k v o :
  is_Some (get k o) -> keys (set k v o) = keys o.
Proof.
  unfold keys. induction o as [|[k0 v0] o IH]; cbn.
  - by intros [? ?].
  - destruct (String.eqb_spec k0 k) as [->|H0]; cbn; [reflexivity|].
    intros H. by rewrite IH.
Qed.

Lemma some_exists {A} (p : A -> bool) (l : list A) :
  some p l = true <-> exists x, x ∈ l /\ p x = true.
Proof.
  unfold some. rewrite existsb_exists.
  split; intros (x & Hx & Hp); exists x; split; try done;
    by apply list_elem_of_In.
Qed.

Lemma append_cancel_r s a : forall b,
  (a ++ s)%string = (b ++ s)%string -> a = b.
Proof.
  induction a as [|x a IH]; intros [|y b] H; [reflexivity| | |].
  - apply (f_equal String.length) in H.
    rewrite append_nil, append_cons in H. cbn in H.
    rewrite length_append in H. lia.
  - apply (f_equal String.length) in H.
    rewrite append_nil, append_cons in H. cbn in H.
    rewrite length_append in H. lia.
  - rewrite !append_cons in H. injection H as -> H. f_equal. by apply IH.
Qed.

End JsFacts.

(* ================================================================== *)
(** * The answers of the generator *)
(* ================================================================== *)

Module StarterFacts.
Import Js Starter JsFacts.

(** X11. The stored back-end project name always holds a dot, and has the
    form the filter gives: filtering it again changes nothing. *)
Theorem backendName_filter_settles answer :
  has_char "." (backendName_filter answer) = true /\
  backendName_filter (backendName_filter answer) = backendName_filter answer.
Proof.
  unfold backendName_filter.
  destruct (has_char "." answer) eqn:Hdot.
  - rewrite !append_empty, has_char_trim, Hdot by reflexivity.
    split; [reflexivity|]. by rewrite append_empty, trim_idem.
  - assert (Hin : has_char "." (trim answer ++ ".Web")%string = true).
    { rewrite has_char_append. apply orb_true_r. }
    rewrite Hin, append_empty. split; [reflexivity|].
    unfold trim at 1.
    rewrite trimStart_id.
    + by apply trimEnd_append.
    + pose proof (trim_clean answer) as Hc.
      destruct (trim answer); [reflexivity|exact Hc].
Qed.

(** X12. For an answer that is not empty and has no white space around it,
    the text the question shows (colours apart) is the name that is
    stored. *)
Theorem backendName_preview_is_stored answer isFinal :
  answer <> String.EmptyString ->
  trim answer = answer ->
  backendName_transformer id id answer isFinal = backendName_filter answer.
Proof.
  intros Hne Htrim.
  unfold backendName_transformer, backendName_filter. rewrite Htrim.
  destruct answer as [|c s]; [done|]. cbn [String.length Nat.ltb Nat.leb andb].
  destruct (has_char "." (String.String c s)), isFinal; cbn [negb id];
    by rewrite ?append_empty.
Qed.

Lemma backendName_preview_is_stored_shop :
  backendName_transformer id id "Shop" false = "Shop.Web"%string.
Proof.
  apply (backendName_preview_is_stored "Shop" false); [discriminate|reflexivity].
Defined.

Lemma without_separators_append a b :
  without_separators (a ++ b)%string =
    (without_separators a ++ without_separators b)%string.
Proof.
  induction a as [|c a IH]; [reflexivity|].
  rewrite append_cons. cbn.
  destruct (Ascii.eqb c "/" || Ascii.eqb c "-"); [exact IH|].
  by rewrite append_cons, IH.
Qed.

Lemma without_separators_idem s :
  without_separators (without_separators s) = without_separators s.
Proof.
  induction s as [|c s IH]; [reflexivity|]. cbn.
  destruct (Ascii.eqb c "/" || Ascii.eqb c "-") eqn:Hc; [exact IH|].
  cbn. by rewrite Hc, IH.
Qed.

Lemma substring_all s : String.substring 0 (String.length s) s = s.
Proof. induction s as [|c s IH]; cbn; [reflexivity|by rewrite IH]. Qed.

(** The three slices of the loop are the answer cut in three. *)
Lemma slices_rejoin s :
  (slice s 0 4 ++ slice s 4 6 ++ slice_from s 6)%string = s.
Proof.
  unfold slice, slice_from.
  destruct s as [|c1 [|c2 [|c3 [|c4 [|c5 [|c6 s]]]]]]; try reflexivity.
  cbn [String.length Nat.sub String.substring].
  rewrite Nat.sub_0_r, substring_all.
  replace (String.substring 0 0 s) with ""%string by (by destruct s).
  reflexivity.
Qed.

(** X13. The date [configuring()] stores is the answer the filter kept
    with two hyphens put in: taking the separators out of it gives the
    answer back, and it is two code units longer. *)
Theorem configured_date_keeps_the_answer answer :
  let stored := date_filter answer in
  without_separators (configured_date stored) = stored /\
  String.length (configured_date stored) = String.length stored + 2.
Proof.
  intros stored. unfold configured_date.
  assert (Hs : without_separators stored = stored)
    by apply without_separators_idem.
  split.
  - rewrite !without_separators_append.
    change (without_separators "-") with ""%string.
    rewrite !append_nil, <- !without_separators_append.
    by rewrite slices_rejoin.
  - rewrite <- (slices_rejoin stored) at 4.
    rewrite !length_append. cbn [String.length]. lia.
Qed.

(** X14. A date typed as year, month and day with a slash or a hyphen
    between them, the year of four and the month of two code units, is
    stored in the form year-month-day. *)
Theorem typed_date_is_stored_with_hyphens y m d s1 s2 :
  String.length y = 4 -> String.length m = 2 ->
  without_separators y = y -> without_separators m = m ->
  without_separators d = d ->
  without_separators (String.String s1 (String.String s2 "")) = ""%string ->
  trim (y ++ String.String s1 (m ++ String.String s2 d))%string =
    (y ++ String.String s1 (m ++ String.String s2 d))%string ->
  configured_date
    (date_filter (y ++ String.String s1 (m ++ String.String s2 d))%string) =
    (y ++ "-" ++ m ++ "-" ++ d)%string.
Proof.
  intros Hy Hm Wy Wm Wd Hsep Htrim. unfold date_filter. rewrite Htrim.
  assert (H1 : without_separators (String.String s1 "") = ""%string /\
               without_separators (String.String s2 "") = ""%string).
  { revert Hsep. cbn.
    destruct (Ascii.eqb s1 "/" || Ascii.eqb s1 "-"),
      (Ascii.eqb s2 "/" || Ascii.eqb s2 "-"); by intros. }
  destruct H1 as [H1 H2].
  change (String.String s1 (m ++ String.String s2 d)%string) with
    (String.String s1 "" ++ (m ++ (String.String s2 "" ++ d)))%string.
  rewrite !without_separators_append, H1, H2, Wy, Wm, Wd, !append_nil.
  destruct y as [|a [|b [|c [|e [|? ?]]]]]; try discriminate.
  destruct m as [|f [|g [|? ?]]]; try discriminate.
  unfold configured_date, slice, slice_from.
  cbn [String.length Nat.sub String.substring String.append].
  rewrite !append_cons, !append_nil.
  cbn [String.length Nat.sub String.substring].
  rewrite Nat.sub_0_r, substring_all.
  replace (String.substring 0 0 d) with ""%string by (by destruct d).
  reflexivity.
Qed.

Lemma typed_date_is_stored_with_hyphens_slashes :
  configured_date (date_filter "2022/10/25") = "2022-10-25"%string.
Proof.
  apply (typed_date_is_stored_with_hyphens "2022" "10" "25" "/" "/");
    reflexivity.
Defined.

Lemma configure_dates_all ds : forall answers,
  NoDup ds ->
  (forall d, d ∈ ds -> is_Some (get d answers)) ->
  exists answers',
    configure_dates ds answers = (None, answers') /\
    keys answers' = keys answers /\
    forall k, get k answers' =
      if bool_decide (k ∈ ds) then configured_date <$> get k answers
      else get k answers.
Proof.
  induction ds as [|d ds IH]; intros answers Hnd Hall.
  - exists answers. split; [reflexivity|]. split; [reflexivity|]. intros k.
    rewrite bool_decide_eq_false_2; [reflexivity|]. by intros H; inversion H.
  - apply NoDup_cons in Hnd as [Hd Hnd].
    destruct (Hall d) as [a Ha]; [apply list_elem_of_here|].
    cbn [configure_dates]. rewrite Ha.
    destruct (IH (set d (configured_date a) answers) Hnd) as (o' & Ho' & Hk & Hg).
    { intros d' Hd'. rewrite get_set_other by (intros ->; done).
      apply Hall. by apply list_elem_of_further. }
    exists o'. split; [exact Ho'|]. split.
    { rewrite Hk. apply keys_set_present. by exists a. }
    intros k. rewrite Hg. destruct (decide (k = d)) as [->|Hne].
    + rewrite (bool_decide_eq_false_2 _ Hd).
      rewrite bool_decide_eq_true_2 by apply list_elem_of_here.
      by rewrite get_set_same, Ha.
    + rewrite get_set_other by done.
      apply (f_equal (fun b : bool => if b then _ else _)).
      apply bool_decide_ext. rewrite elem_of_cons. intuition congruence.
Qed.

Lemma configure_dates_throws ds : forall answers,
  (configure_dates ds answers).1 = Some TypeError_slice <->
  exists d, d ∈ ds /\ get d answers = None.
Proof.
  induction ds as [|d ds IH]; intros answers; cbn [configure_dates].
  - split; [discriminate|]. intros (d & Hd & _). inversion Hd.
  - destruct (get d answers) as [a|] eqn:Ha.
    + rewrite IH. split.
      * intros (d' & Hd' & Hn). exists d'. split; [by apply list_elem_of_further|].
        destruct (decide (d = d')) as [->|Hne].
        -- by rewrite get_set_same in Hn.
        -- by rewrite get_set_other in Hn.
      * intros (d' & Hd' & Hn). exists d'.
        apply elem_of_cons in Hd' as [->|Hd']; [congruence|].
        split; [exact Hd'|].
        destruct (decide (d = d')) as [->|Hne]; [congruence|].
        by rewrite get_set_other.
    + split; [|reflexivity]. intros _. exists d. split; [apply list_elem_of_here|exact Ha].
Qed.

(** X15. When every date question has an answer, the loop over [dates]
    ends without an error, gives each of the twelve answers its hyphens,
    and leaves every other answer and the order of the answers as they
    were. *)
Theorem dates_are_configured answers :
  (forall d, d ∈ dates -> is_Some (get d answers)) ->
  exists answers',
    configure_dates dates answers = (None, answers') /\
    keys answers' = keys answers /\
    forall k, get k answers' =
      if bool_decide (k ∈ dates) then configured_date <$> get k answers
      else get k answers.
Proof.
  apply configure_dates_all.
  apply (bool_decide_unpack _). vm_compute. exact I.
Qed.

Lemma dates_are_configured_answered :
  exists answers',
    configure_dates dates answered = (None, answers') /\
    keys answers' = keys answered /\
    forall k, get k answers' =
      if bool_decide (k ∈ dates) then configured_date <$> get k answered
      else get k answered.
Proof.
  apply (dates_are_configured answered).
  intros d Hd. unfold dates in Hd.
  repeat (apply elem_of_cons in Hd as [->|Hd]; [by eexists|]).
  inversion Hd.
Defined.

(** X16. The loop over [dates] throws a TypeError exactly when one of the
    twelve date answers is missing. *)
Theorem dates_loop_throws_iff_answer_missing answers :
  (configure_dates dates answers).1 = Some TypeError_slice <->
  exists d, d ∈ dates /\ get d answers = None.
Proof. apply configure_dates_throws. Qed.

Lemma some_outdated versions :
  some (fun e => negb (hasMinimum e)) versions =
    negb (length (List.filter (fun e => negb (hasMinimum e)) versions) =? 0).
Proof.
  unfold some. induction versions as [|e versions IH]; [reflexivity|].
  cbn. destruct (hasMinimum e); cbn; [exact IH|reflexivity].
Qed.

(** X17. [initializing()] logs one message; it exits, with code 1, exactly
    when some engine is below its minimum, and then the message ends with
    the line that says it stops; otherwise the message ends with the line
    that announces the questions. *)
Theorem initializing_stops_iff_outdated bold dim red yosay versions :
  let r := initializing bold dim red yosay versions in
  length r.1 = 1 /\
  (r.2 = Some 1%Z <-> exists e, e ∈ versions /\ hasMinimum e = false) /\
  (r.2 = Some 1%Z <->
     last (intro bold dim red versions) = Some "Stopping now..."%string) /\
  (r.2 = None <->
     last (intro bold dim red versions) =
       Some "We're going to start by filling some questions."%string).
Proof.
  cbn zeta. unfold initializing, intro. cbn [fst snd].
  split; [reflexivity|]. split.
  { destruct (some _ versions) eqn:Hs.
    - apply some_exists in Hs as (e & He & Hm). split; [|done].
      intros _. exists e. split; [exact He|]. by apply negb_true_iff.
    - split; [discriminate|]. intros (e & He & Hm).
      assert (some (fun e => negb (hasMinimum e)) versions = true).
      { apply some_exists. exists e. by rewrite Hm. }
      congruence. }
  rewrite some_outdated.
  destruct (length _ =? 0); cbn; split; split; congruence.
Qed.

Lemma digits_inj d : forall d', digits d = digits d' -> d = d'.
Proof.
  induction d as [|d IH|d IH|d IH|d IH|d IH|d IH|d IH|d IH|d IH|d IH];
    intros [|d'|d'|d'|d'|d'|d'|d'|d'|d'|d']; cbn; intros H;
    try discriminate; try reflexivity;
    injection H as H; f_equal; by apply IH.
Qed.

Lemma Number_toString_inj n n' :
  Number_toString n = Number_toString n' -> n = n'.
Proof.
  intros H. by apply DecimalN.Unsigned.to_uint_inj, digits_inj.
Qed.

Lemma digits_no_dot d : has_char "." (digits d) = false.
Proof. induction d; cbn; done. Qed.

Lemma split_at_dot a : forall b x y,
  has_char "." a = false -> has_char "." b = false ->
  (a ++ String.String "." x)%string = (b ++ String.String "." y)%string ->
  a = b /\ x = y.
Proof.
  induction a as [|c a IH]; intros [|c' b] x y Ha Hb H.
  - rewrite !append_nil in H. by injection H as ->.
  - rewrite append_nil, append_cons in H. injection H as <- _.
    cbn in Hb. discriminate.
  - rewrite append_nil, append_cons in H. injection H as -> _.
    cbn in Ha. discriminate.
  - rewrite !append_cons in H. injection H as -> H.
    cbn in Ha, Hb. apply orb_false_iff in Ha as [_ Ha].
    apply orb_false_iff in Hb as [_ Hb].
    destruct (IH b x y Ha Hb H) as [-> ->]. done.
Qed.

(** X18. The engine version that is stored tells the major and the minor
    number of the chosen version and nothing else: two versions give the
    same text exactly when they agree on both. *)
Theorem engine_answer_names_major_and_minor a b :
  engine_answer a = engine_answer b <->
  major a = major b /\ minor a = minor b.
Proof.
  unfold engine_answer. split.
  - intros H.
    destruct (0 <? minor a)%N eqn:Ha, (0 <? minor b)%N eqn:Hb.
    + apply split_at_dot in H as [H1 H2];
        [|apply digits_no_dot|apply digits_no_dot].
      split; by apply Number_toString_inj.
    + exfalso. apply (f_equal (has_char ".")) in H.
      rewrite !has_char_append in H. unfold Number_toString in H.
      rewrite !digits_no_dot in H. cbn in H. discriminate.
    + exfalso. apply (f_equal (has_char ".")) in H.
      rewrite !has_char_append in H. unfold Number_toString in H.
      rewrite !digits_no_dot in H. cbn in H. discriminate.
    + rewrite !append_empty in H. apply Number_toString_inj in H.
      apply N.ltb_ge in Ha, Hb. split; [exact H|lia].
  - by intros [-> ->].
Qed.

Lemma gt_project_version v m :
  gt v (project_version v m) = false /\ gt m (project_version v m) = false.
Proof.
  unfold project_version.
  destruct (gt v m) eqn:Hgt.
  - split; revert Hgt; unfold gt;
      repeat match goal with
      | |- context [(?x =? ?y)%N] => destruct (N.eqb_spec x y)
      | |- context [(?x <? ?y)%N] => destruct (N.ltb_spec x y)
      end; intros; try congruence; lia.
  - split; [exact Hgt|]. unfold gt. rewrite !N.eqb_refl. apply N.ltb_irrefl.
Qed.

(** X19. When every engine has a version and a minimum that can be read,
    the loop over [versions] ends without an error and stores for each
    engine the text of the installed version or of the minimum, whichever
    is not older than the other. *)
Theorem engine_versions_are_configured coerce versions answers :
  NoDup (map key versions) ->
  (forall e, e ∈ versions ->
     is_Some (version e) /\ is_Some (coerce (minimum e))) ->
  exists answers',
    configure_versions coerce versions answers = (None, answers') /\
    forall e v m, e ∈ versions ->
      version e = Some v -> coerce (minimum e) = Some m ->
      exists chosen,
        get (key e ++ "Version")%string answers' =
          Some (engine_answer chosen) /\
        (chosen = v \/ chosen = m) /\
        gt v chosen = false /\ gt m chosen = false.
Proof.
  revert answers. induction versions as [|e versions IH]; intros answers Hnd Hall.
  - exists answers. split; [reflexivity|]. intros e v m He. inversion He.
  - cbn [map] in Hnd. apply NoDup_cons in Hnd as [Hk Hnd].
    destruct (Hall e) as [[v Hv] [m Hm]]; [apply list_elem_of_here|].
    cbn [configure_versions]. rewrite Hv, Hm.
    set (answers1 := set _ _ answers).
    destruct (IH answers1 Hnd) as (answers' & Hrun & Hget).
    { intros e' He'. apply Hall. by apply list_elem_of_further. }
    exists answers'. split; [exact Hrun|].
    assert (Hkeep : forall rest answers0,
      key e ∉ map key rest ->
      (forall e', e' ∈ rest ->
         is_Some (version e') /\ is_Some (coerce (minimum e'))) ->
      get (key e ++ "Version")%string
        (configure_versions coerce rest answers0).2 =
      get (key e ++ "Version")%string answers0).
    { clear. induction rest as [|e' rest IHr]; intros answers0 Hk Hall;
        [reflexivity|].
      cbn [configure_versions].
      destruct (Hall e') as [[v Hv] [m Hm]]; [apply list_elem_of_here|].
      rewrite Hv, Hm. rewrite IHr.
      - apply get_set_other. intros Heq. apply append_cancel_r in Heq.
        apply Hk. cbn. rewrite Heq. apply list_elem_of_here.
      - intros Hin. apply Hk. cbn. by apply list_elem_of_further.
      - intros e0 He0. apply Hall. by apply list_elem_of_further. }
    intros e0 v0 m0 He0 Hv0 Hm0.
    apply elem_of_cons in He0 as [->|He0]; [|by eapply Hget].
    assert (v0 = v) as -> by congruence. assert (m0 = m) as -> by congruence.
    exists (project_version v m).
    split.
    { specialize (Hkeep versions answers1 Hk).
      rewrite Hrun in Hkeep. cbn [snd] in Hkeep. rewrite Hkeep.
      - apply get_set_same.
      - intros e' He'. apply Hall. by apply list_elem_of_further. }
    split; [unfold project_version; destruct (gt v m); tauto|].
    apply gt_project_version.
Qed.

Lemma engine_versions_are_configured_engines :
  exists answers',
    configure_versions coerce_engines engines [] = (None, answers') /\
    forall e v m, e ∈ engines ->
      version e = Some v -> coerce_engines (minimum e) = Some m ->
      exists chosen,
        get (key e ++ "Version")%string answers' =
          Some (engine_answer chosen) /\
        (chosen = v \/ chosen = m) /\
        gt v chosen = false /\ gt m chosen = false.
Proof.
  apply (engine_versions_are_configured coerce_engines engines []).
  - apply (bool_decide_unpack _). vm_compute. exact I.
  - intros e He. unfold engines in He.
    repeat (apply elem_of_cons in He as [->|He]; [split; by eexists|]).
    inversion He.
Defined.

End StarterFacts.

(* ================================================================== *)
(** * The development dependencies the generator writes *)
(* ================================================================== *)

Module WritingFacts.
Import Js JsFacts Writing.

Lemma step_parts (m : W unit) (k k' D : W unit) p :
  (forall p', k p' = (k' ;; D) p') ->
  (m ;; k) p = ((m ;; k') ;; D) p.
Proof.
  intros H. unfold mbind, W_bind.
  destruct (m p) as [[[]|e|c] p']; [apply H|reflexivity|reflexivity].
Qed.

(** [writing()] is its file-writing steps followed by its dependency
    steps. *)
Lemma writing_parts sv themes p :
  writing sv themes p = (files_part sv themes ;; dependencies_part sv) p.
Proof.
  unfold writing, files_part.
  do 8 (apply step_parts; intros).
  reflexivity.
Qed.

Lemma writes_files_bind {A B} (m : W A) (f : A -> W B) :
  writes_files m -> (forall a, writes_files (f a)) -> writes_files (m ≫= f).
Proof.
  intros Hm Hf p. unfold mbind, W_bind.
  destruct (Hm p) as [(H1 & H2 & H3 & H4) Hx].
  destruct (m p) as [[a|e|c] p1]; cbn in *.
  - destruct (Hf a p1) as [(K1 & K2 & K3 & K4) Ky].
    split; [|exact Ky]. unfold frame. by rewrite K1, K2, K3, K4.
  - split; [done|]. intros code. discriminate.
  - by destruct (Hx c).
Qed.

Lemma writes_files_call_template sv op : writes_files (call_template sv op).
Proof.
  intros p. unfold call_template. cbn. split; [done|].
  intros code. destruct (template sv op); discriminate.
Qed.

Lemma writes_files_for_of {A} (l : list A) body :
  (forall x, writes_files (body x)) -> writes_files (for_of l body).
Proof.
  intros Hb. induction l as [|x l IH]; cbn.
  - intros p. split; [done|]. intros code. discriminate.
  - apply writes_files_bind; [apply Hb|]. intros _. exact IH.
Qed.

Lemma writes_files_files_part sv themes : writes_files (files_part sv themes).
Proof.
  unfold files_part.
  repeat first
    [ apply writes_files_call_template
    | apply writes_files_for_of; intros ?
    | apply writes_files_bind; [|intros _] ].
Qed.

Lemma returns_for_of {A} (l : list A) (body : A -> W unit) :
  (forall x, returns (body x)) -> returns (for_of l body).
Proof.
  intros Hb. induction l as [|x l IH]; intros p; [reflexivity|].
  cbn. unfold mbind, W_bind. specialize (Hb x p).
  destruct (body x p) as [[[]|e|c] p1]; cbn in Hb; try discriminate.
  apply IH.
Qed.

Lemma returns_bind (m k : W unit) :
  returns m -> returns k -> returns (m ;; k).
Proof.
  intros Hm Hk p. unfold mbind, W_bind. specialize (Hm p).
  destruct (m p) as [[[]|e|c] p1]; cbn in Hm; try discriminate. apply Hk.
Qed.

Lemma files_part_returns sv themes :
  (forall op, template sv op = None) -> returns (files_part sv themes).
Proof.
  intros Hok.
  assert (Hc : forall op, returns (call_template sv op)).
  { intros op p. unfold call_template. cbn. by rewrite Hok. }
  unfold files_part.
  repeat first
    [ apply Hc
    | apply returns_for_of; intros ?
    | apply returns_bind ].
Qed.

Lemma fill_keys deps : forall dd, keys (fill dd deps) = keys dd.
Proof.
  unfold fill. induction deps as [|[n x] deps IH]; intros dd; [reflexivity|].
  cbn [foldl fst snd]. rewrite IH.
  destruct (get n dd) as [[|c v]|] eqn:Hn; try reflexivity.
  apply keys_set_present. by eexists.
Qed.

Lemma fill_get deps : forall dd name,
  get name (fill dd deps) =
    match get name dd with
    | Some String.EmptyString =>
        Some (match get name deps with
              | Some x => ("^" ++ x)%string
              | None => String.EmptyString
              end)
    | other => other
    end.
Proof.
  unfold fill. induction deps as [|[n x] deps IH]; intros dd name.
  - cbn. by destruct (get name dd) as [[|? ?]|].
  - cbn [foldl fst snd]. rewrite IH. cbn [get].
    destruct (String.eqb_spec n name) as [->|Hne].
    + destruct (get name dd) as [[|c v]|] eqn:Hn; rewrite ?Hn; try reflexivity.
      by rewrite get_set_same.
    + destruct (get n dd) as [[|c v]|] eqn:Hn; try reflexivity.
      by rewrite get_set_other.
Qed.

Lemma get_unversioned (o : object) name :
  Forall (fun entry => entry.2 = String.EmptyString) o ->
  name ∈ keys o -> get name o = Some String.EmptyString.
Proof.
  unfold keys. induction o as [|[k v] o IH]; intros Hall Hin.
  - inversion Hin.
  - apply Forall_cons in Hall as [Hv Hall]. cbn in *. subst v.
    destruct (String.eqb_spec k name) as [->|Hne]; [reflexivity|].
    apply elem_of_cons in Hin as [->|Hin]; [done|]. by apply IH.
Qed.

(** What the dependency steps do, told from a state [p0] that differs from
    theirs in the file-writing calls only. *)
Lemma dependencies_part_outcome sv p0 p :
  frame p0 p ->
  match dependencies_part sv p with
  | (Normal _, p') =>
      console p' = console p0 /\
      exists r v dependencies,
        last (requests p') = Some r /\ packageJson sv r = inr v /\
        added p' =
          added p0 ++ [set design_guide ("^" ++ v)%string devDependencies] /\
        addDevDependencies sv
          (set design_guide ("^" ++ v)%string devDependencies) =
          inr dependencies /\
        package_json p' =
          package_json p0 ++
            [("devDependencies"%string,
              fill (set design_guide ("^" ++ v)%string devDependencies)
                dependencies)]
  | (Thrown e, p') =>
      console p' = console p0 /\ package_json p' = package_json p0
  | (Exited code, p') =>
      code = 1%Z /\ added p' = added p0 /\
      package_json p' = package_json p0 /\
      exists e, console p' = console p0 ++ [message e] /\
        (e = TypeError_slice /\ requests p' = requests p0 \/
         exists r, last (requests p') = Some r /\ packageJson sv r = inl e)
  end /\
  exists new,
    requests (dependencies_part sv p).2 = requests p0 ++ new /\
    (new = [] \/
     (exists url,
        new = [{| package := design_guide; tag := None;
                  registryUrl := url |}]) \/
     (exists url e,
        new = [{| package := design_guide; tag := None;
                  registryUrl := url |};
               {| package := design_guide; tag := Some "next"%string;
                  registryUrl := url |}] /\
        packageJson sv {| package := design_guide; tag := None;
                          registryUrl := url |} = inl e /\
        constructor_name e = "VersionNotFoundError"%string)).
Proof.
  intros (F1 & F2 & F3 & F4).
  unfold dependencies_part, for_private, private_version, ask, registry_url,
    try_catch, call_readFileSync, call_packageJson, call_addDevDependencies,
    console_error, packageJson_set, exit, throw, mbind, mret, W_bind, W_ret.
  cbn beta iota zeta.
  destruct (readFileSync sv _) as [e|file]; cbn.
  { split; [by rewrite F2, F4|]. exists []. rewrite app_nil_r. by split; [|left]. }
  destruct (List.find _ (split_lines file)) as [line|]; cbn.
  2:{ split.
      - rewrite F2, F3, F4. repeat split; try done.
        exists TypeError_slice. split; [done|]. by left.
      - exists []. rewrite app_nil_r. by split; [|left]. }
  set (url := trim (slice_at line (indexOf line "http"))).
  set (latest := {| package := design_guide; tag := None; registryUrl := url |}).
  set (next := {| package := design_guide; tag := Some "next"%string;
                  registryUrl := url |}).
  destruct (packageJson sv latest) as [e|v] eqn:Hlatest; cbn.
  - destruct (String.eqb_spec (constructor_name e) "VersionNotFoundError")
      as [Hname|Hname]; cbn.
    + destruct (packageJson sv next) as [e'|v] eqn:Hnext; cbn.
      * rewrite F1, F2, F3, F4. split.
        -- repeat split; try done. exists e'. split; [done|]. right.
           exists next. split; [|done]. by rewrite <- app_assoc, last_app.
        -- exists [latest; next]. split; [by rewrite <- app_assoc|].
           right; right. by exists url, e.
      * destruct (addDevDependencies sv _) as [e'|deps] eqn:Hadd; cbn.
        -- rewrite F1, F2, F4. split; [done|].
           exists [latest; next]. split; [by rewrite <- app_assoc|].
           right; right. by exists url, e.
        -- rewrite F1, F2, F3, F4. split.
           ++ split; [done|]. exists next, v, deps.
              repeat split; try done. by rewrite <- app_assoc, last_app.
           ++ exists [latest; next]. split; [by rewrite <- app_assoc|].
              right; right. by exists url, e.
    + rewrite F1, F2, F3, F4. split.
      * repeat split; try done. exists e. split; [done|]. right.
        exists latest. split; [|done]. by rewrite last_app.
      * exists [latest]. split; [done|]. right; left. by exists url.
  - destruct (addDevDependencies sv _) as [e'|deps] eqn:Hadd; cbn.
    + rewrite F1, F2, F4. split; [done|].
      exists [latest]. split; [done|]. right; left. by exists url.
    + rewrite F1, F2, F3, F4. split.
      * split; [done|]. exists latest, v, deps.
        repeat split; try done. by rewrite last_app.
      * exists [latest]. split; [done|]. right; left. by exists url.
Qed.

Lemma writing_outcome sv themes p :
  match writing sv themes p with
  | (Normal _, p') =>
      console p' = console p /\
      exists r v dependencies,
        last (requests p') = Some r /\ packageJson sv r = inr v /\
        added p' =
          added p ++ [set design_guide ("^" ++ v)%string devDependencies] /\
        addDevDependencies sv
          (set design_guide ("^" ++ v)%string devDependencies) =
          inr dependencies /\
        package_json p' =
          package_json p ++
            [("devDependencies"%string,
              fill (set design_guide ("^" ++ v)%string devDependencies)
                dependencies)]
  | (Thrown e, p') =>
      console p' = console p /\ package_json p' = package_json p
  | (Exited code, p') =>
      code = 1%Z /\ added p' = added p /\
      package_json p' = package_json p /\
      exists e, console p' = console p ++ [message e] /\
        (e = TypeError_slice /\ requests p' = requests p \/
         exists r, last (requests p') = Some r /\ packageJson sv r = inl e)
  end /\
  exists new,
    requests (writing sv themes p).2 = requests p ++ new /\
    (new = [] \/
     (exists url,
        new = [{| package := design_guide; tag := None;
                  registryUrl := url |}]) \/
     (exists url e,
        new = [{| package := design_guide; tag := None;
                  registryUrl := url |};
               {| package := design_guide; tag := Some "next"%string;
                  registryUrl := url |}] /\
        packageJson sv {| package := design_guide; tag := None;
                          registryUrl := url |} = inl e /\
        constructor_name e = "VersionNotFoundError"%string)).
Proof.
  rewrite writing_parts. unfold mbind, W_bind.
  destruct (writes_files_files_part sv themes p) as [Hf Hx].
  destruct (files_part sv themes p) as [[[]|e|c] p1]; cbn [fst snd] in Hf, Hx.
  - by apply dependencies_part_outcome.
  - destruct Hf as (F1 & F2 & F3 & F4). split; [done|].
    exists []. rewrite app_nil_r. cbn. by split; [|left].
  - by destruct (Hx c).
Qed.

(** X20. [writing()] stores the development dependencies in package.json
    once, and only when it returns.  When it throws it has written nothing
    on the console.  When it makes the process exit, the code is 1, one
    line was written on the console, the message of the error met while
    asking the registry, and [addDevDependencies] was not called. *)
Theorem writing_stores_or_stops sv themes p :
  match writing sv themes p with
  | (Normal _, p') =>
      length (package_json p') = S (length (package_json p)) /\
      length (added p') = S (length (added p)) /\
      console p' = console p
  | (Thrown e, p') =>
      package_json p' = package_json p /\ console p' = console p
  | (Exited code, p') =>
      code = 1%Z /\ package_json p' = package_json p /\
      added p' = added p /\
      exists e, console p' = console p ++ [message e] /\
        (e = TypeError_slice /\ requests p' = requests p \/
         exists r, last (requests p') = Some r /\ packageJson sv r = inl e)
  end.
Proof.
  destruct (writing_outcome sv themes p) as [H _].
  destruct (writing sv themes p) as [[[]|e|c] p'].
  - destruct H as (Hc & r & v & deps & _ & _ & Ha & _ & Hp).
    rewrite Ha, Hp, !length_app. cbn. split; [lia|]. split; [lia|done].
  - tauto.
  - destruct H as (-> & Ha & Hp & He). done.
Qed.

(** X21. When [writing()] returns, the object it stores has the thirty
    names of the source in their order; the private package has the
    version the registry gave, whatever [addDevDependencies] answered for
    it; every other name has the version [addDevDependencies] answered,
    after a caret, or the empty string when it answered none. *)
Theorem stored_versions sv themes p p' :
  writing sv themes p = (Normal tt, p') ->
  exists r v dependencies stored,
    last (requests p') = Some r /\ packageJson sv r = inr v /\
    last (added p') =
      Some (set design_guide ("^" ++ v)%string devDependencies) /\
    addDevDependencies sv
      (set design_guide ("^" ++ v)%string devDependencies) =
      inr dependencies /\
    last (package_json p') = Some ("devDependencies"%string, stored) /\
    keys stored = keys devDependencies /\
    get design_guide stored = Some ("^" ++ v)%string /\
    forall name, name ∈ keys devDependencies -> name <> design_guide ->
      get name stored =
        Some (match get name dependencies with
              | Some x => ("^" ++ x)%string
              | None => String.EmptyString
              end).
Proof.
  intros Hrun. destruct (writing_outcome sv themes p) as [H _].
  rewrite Hrun in H.
  destruct H as (_ & r & v & deps & Hr & Hv & Ha & Hd & Hp).
  exists r, v, deps, (fill (set design_guide ("^" ++ v)%string devDependencies) deps).
  split; [exact Hr|]. split; [exact Hv|].
  split; [by rewrite Ha, last_app|]. split; [exact Hd|].
  split; [by rewrite Hp, last_app|]. split.
  { rewrite fill_keys. apply keys_set_present. by eexists. }
  split.
  { rewrite fill_get, get_set_same. reflexivity. }
  intros name Hin Hne. rewrite fill_get, get_set_other by done.
  rewrite get_unversioned; [reflexivity| |exact Hin].
  apply (bool_decide_unpack _). vm_compute. exact I.
Qed.

Lemma stored_versions_prerelease :
  exists r v dependencies stored,
    last (requests (writing prerelease false start).2) = Some r /\
    packageJson prerelease r = inr v /\
    last (added (writing prerelease false start).2) =
      Some (set design_guide ("^" ++ v)%string devDependencies) /\
    addDevDependencies prerelease
      (set design_guide ("^" ++ v)%string devDependencies) =
      inr dependencies /\
    last (package_json (writing prerelease false start).2) =
      Some ("devDependencies"%string, stored) /\
    keys stored = keys devDependencies /\
    get design_guide stored = Some ("^" ++ v)%string /\
    forall name, name ∈ keys devDependencies -> name <> design_guide ->
      get name stored =
        Some (match get name dependencies with
              | Some x => ("^" ++ x)%string
              | None => String.EmptyString
              end).
Proof.
  apply (stored_versions prerelease false start). vm_compute. reflexivity.
Defined.

(** X22. A run of [writing()] asks the registry at most twice, for the
    private package only and with one registry address: first with no
    version, then, only when that request failed with a
    VersionNotFoundError, once more with the version [next]. *)
Theorem registry_is_asked_at_most_twice sv themes p :
  exists new,
    requests (writing sv themes p).2 = requests p ++ new /\
    (new = [] \/
     (exists url,
        new = [{| package := design_guide; tag := None;
                  registryUrl := url |}]) \/
     (exists url e,
        new = [{| package := design_guide; tag := None;
                  registryUrl := url |};
               {| package := design_guide; tag := Some "next"%string;
                  registryUrl := url |}] /\
        packageJson sv {| package := design_guide; tag := None;
                          registryUrl := url |} = inl e /\
        constructor_name e = "VersionNotFoundError"%string)).
Proof. apply writing_outcome. Qed.

(** X23. When the files are written and [.npmrc] has no line for the
    private scope, [writing()] makes the process exit with code 1 before
    any request to the registry: reading the address throws a TypeError,
    whose message is written on the console. *)
Theorem no_registry_line_exits sv themes p file :
  (forall op, template sv op = None) ->
  readFileSync sv (resolve sv [here sv; "../../.npmrc"%string]) = inr file ->
  List.find (fun line => startsWith line "@wycreative") (split_lines file) =
    None ->
  exists p',
    writing sv themes p = (Exited 1, p') /\
    requests p' = requests p /\
    console p' = console p ++ [message TypeError_slice] /\
    added p' = added p /\ package_json p' = package_json p.
Proof.
  intros Hok Hfile Hline. rewrite writing_parts. unfold mbind, W_bind.
  pose proof (files_part_returns sv themes Hok p) as Hret.
  destruct (writes_files_files_part sv themes p) as [(F1 & F2 & F3 & F4) _].
  destruct (files_part sv themes p) as [[[]|e|c] p1]; cbn in Hret;
    try discriminate.
  cbn [snd] in F1, F2, F3, F4.
  unfold dependencies_part, call_readFileSync, mbind, W_bind.
  cbn beta iota zeta. rewrite Hfile. cbn beta iota. rewrite Hline.
  cbn. eexists. split; [reflexivity|]. cbn. by rewrite F1, F2, F3, F4.
Qed.

Lemma no_registry_line_exits_unscoped :
  exists p',
    writing unscoped true start = (Exited 1, p') /\
    requests p' = requests start /\
    console p' = console start ++ [message TypeError_slice] /\
    added p' = added start /\ package_json p' = package_json start.
Proof.
  apply (no_registry_line_exits unscoped true start
           ("engine-strict=true" ++ String.String (ascii_of_nat 10) "")%string);
    reflexivity.
Defined.

End WritingFacts.

(* ================================================================== *)
(** * The key of a fragment *)
(* ================================================================== *)

Module KeyFacts.
Import JsFacts.

Lemma last_index_none_cons c a s :
  Posix.last_index c (String.String a s) = None ->
  Ascii.eqb a c = false /\ Posix.last_index c s = None.
Proof.
  cbn. destruct (Posix.last_index c s); [discriminate|].
  by destruct (Ascii.eqb a c).
Qed.

Lemma trim_trailing_plain s :
  Posix.last_index Posix.slash s = None -> Posix.trim_trailing s = s.
Proof.
  induction s as [|a s IH]; [reflexivity|].
  intros [Ha Hs]%last_index_none_cons. cbn. by rewrite IH, Ha.
Qed.

Lemma trim_trailing_append x y :
  y <> String.EmptyString -> Posix.trim_trailing y = y ->
  Posix.trim_trailing (x ++ y)%string = (x ++ y)%string.
Proof.
  intros Hy Ht. induction x as [|a x IH]; [exact Ht|].
  rewrite append_cons. cbn. rewrite IH.
  assert (Hne : String.eqb (x ++ y)%string "" = false).
  { destruct x; [by destruct y|reflexivity]. }
  by rewrite Hne, andb_false_r.
Qed.

Lemma last_index_append c x f :
  Posix.last_index c f = None ->
  Posix.last_index c (x ++ String.String c f)%string =
    Some (String.length x).
Proof.
  intros Hf. induction x as [|a x IH].
  - rewrite append_nil. cbn. by rewrite Hf, Ascii.eqb_refl.
  - rewrite append_cons. cbn. by rewrite IH.
Qed.

Lemma substring_append x y m :
  String.substring (String.length x) m (x ++ y)%string =
    String.substring 0 m y.
Proof. induction x as [|a x IH]; [reflexivity|exact IH]. Qed.

Lemma substring_whole s : String.substring 0 (String.length s) s = s.
Proof. induction s as [|c s IH]; cbn; [reflexivity|by rewrite IH]. Qed.

Lemma drop_chars_append x c f :
  Posix.drop_chars (S (String.length x)) (x ++ String.String c f)%string = f.
Proof.
  unfold Posix.drop_chars.
  replace (x ++ String.String c f)%string
    with ((x ++ String.String c "") ++ f)%string
    by (by rewrite append_assoc).
  replace (S (String.length x))
    with (String.length (x ++ String.String c "")%string)
    by (rewrite length_append; cbn; lia).
  rewrite substring_append, length_append.
  replace (String.length (x ++ String.String c "")%string + String.length f
           - String.length (x ++ String.String c "")%string)
    with (String.length f) by lia.
  apply substring_whole.
Qed.

(** The last portion of a path is the file name behind its last
    separator. *)
Lemma last_portion_file dir file :
  file <> String.EmptyString ->
  Posix.last_index Posix.slash file = None ->
  Posix.last_portion (dir ++ "/" ++ file)%string = file /\
  Posix.last_portion file = file.
Proof.
  intros Hne Hplain. unfold Posix.last_portion. split.
  - change (dir ++ "/" ++ file)%string
      with (dir ++ String.String Posix.slash file)%string.
    rewrite trim_trailing_append;
      [|discriminate
       |change (String.String Posix.slash file)
          with ("/" ++ file)%string;
        apply (trim_trailing_append "/" file Hne);
        by apply trim_trailing_plain].
    rewrite last_index_append by done. apply drop_chars_append.
  - by rewrite trim_trailing_plain, Hplain.
Qed.

Lemma substring_length n m s :
  String.length (String.substring n m s) <= m.
Proof.
  revert n m. induction s as [|c s IH]; intros [|n] [|m]; cbn; try lia.
  - specialize (IH 0 m). lia.
  - apply (IH n 0).
  - apply (IH n (S m)).
Qed.

(** An extension that is not empty is shorter than the last portion. *)
Lemma extname_shorter path :
  Posix.extname path = String.EmptyString \/
  String.length (Posix.extname path) <
    String.length (Posix.last_portion path).
Proof.
  unfold Posix.extname.
  destruct (Posix.last_index Posix.dot (Posix.last_portion path))
    as [[|i]|] eqn:Hi; [by left| |by left].
  destruct (String.eqb (Posix.last_portion path) ".."); [by left|].
  right. unfold Posix.drop_chars.
  pose proof (substring_length (S i)
    (String.length (Posix.last_portion path) - S i)
    (Posix.last_portion path)) as Hlen.
  assert (0 < String.length (Posix.last_portion path)).
  { destruct (Posix.last_portion path); [discriminate|cbn; lia]. }
  lia.
Qed.

(** X24. The key of a fragment is made from its file name only: the
    directory of the file plays no part, so two fragments with the same
    file name in different directories get the same key. *)
Theorem key_ignores_directory dir file :
  file <> String.EmptyString ->
  Posix.last_index Posix.slash file = None ->
  Guide.key_of (dir ++ "/" ++ file)%string = Guide.key_of file.
Proof.
  intros Hne Hplain.
  destruct (last_portion_file dir file Hne Hplain) as [Hd Hf].
  assert (Hext : Posix.extname (dir ++ "/" ++ file)%string =
                 Posix.extname file).
  { unfold Posix.extname. by rewrite Hd, Hf. }
  assert (Hno : forall path,
    Posix.last_portion path = file ->
    String.length file <= String.length path ->
    negb (String.eqb (Posix.extname path) String.EmptyString)
    && String.eqb (Posix.extname path) path = false).
  { intros path Hp Hlen.
    destruct (extname_shorter path) as [->|Hs]; [reflexivity|].
    destruct (String.eqb_spec (Posix.extname path) path) as [Heq|_];
      [|apply andb_false_r].
    rewrite Heq, Hp in Hs. lia. }
  unfold Guide.key_of, Posix.basename.
  rewrite (Hno (dir ++ "/" ++ file)%string Hd), (Hno file Hf), Hext, Hd, Hf;
    [reflexivity|lia|].
  rewrite !length_append. lia.
Qed.

Lemma key_ignores_directory_colors :
  Guide.key_of "src/guide/colors.js" = Guide.key_of "colors.js".
Proof.
  apply (key_ignores_directory "src/guide" "colors.js");
    [discriminate|reflexivity].
Defined.

End KeyFacts.
